(** * cguess: the dependency resolution engine of [cguess.py]

    A shallow embedding of the resolution engine of [cguess.py] (header
    extraction, local header lookup, the package backends, the lookup cache
    and the worklist loop of [main]) together with the properties of the
    engine that the specification states.

    Conventions of the model.
    - Text is a [string] whose characters are the code points U+0000..U+00FF;
      the character classes of Python's [re] and [str] methods are given for
      that range.
    - A Python [set] of strings is a [gset string]; iterating over a set
      ([list(s)], [for x in s]) enumerates [elements s].
    - Messages printed to standard error are not part of the model.
    - The file system and the external tools are read-only inputs of a run
      (a [World]); the cache store and a ghost trace of the lookups performed
      form the mutable environment ([Env]) threaded through the engine. *)

From Stdlib Require Import Ascii List ZArith Lia.
From stdpp Require Import gmap strings list.
Import ListNotations.
Open Scope string_scope.
Open Scope list_scope.
#[global] Set Warnings "-clear-no-such-hyp".

(** ** Characters and strings *)

Module Chars.

Definition code (c : ascii) : nat := nat_of_ascii c.

Definition between (lo hi : nat) (c : ascii) : bool :=
  (lo <=? code c)%nat && (code c <=? hi)%nat.

(** The double quote character. *)
Definition dquote : ascii := ascii_of_nat 34.
Definition tab : ascii := ascii_of_nat 9.
Definition lf : ascii := ascii_of_nat 10.
Definition cr : ascii := ascii_of_nat 13.

(** [\s] of a Python [str] pattern, and the characters removed by
    [str.strip()]: the Unicode white space below U+0100. *)
Definition is_space (c : ascii) : bool :=
  between 9 13 c || between 28 32 c || (code c =? 133)%nat || (code c =? 160)%nat.

Definition is_ascii_letter (c : ascii) : bool :=
  between 65 90 c || between 97 122 c.

Definition is_ascii_digit (c : ascii) : bool := between 48 57 c.

(** [[a-zA-Z_]] *)
Definition is_ident_start (c : ascii) : bool :=
  is_ascii_letter c || (code c =? 95)%nat.

(** [[a-zA-Z0-9_]] *)
Definition is_ident_char (c : ascii) : bool :=
  is_ident_start c || is_ascii_digit c.

(** [\w] of a Python [str] pattern (alphanumeric in the Unicode database,
    or the underscore), below U+0100. *)
Definition is_word (c : ascii) : bool :=
  is_ident_char c
  || (code c =? 170)%nat || (code c =? 178)%nat || (code c =? 179)%nat
  || (code c =? 181)%nat || (code c =? 185)%nat || (code c =? 186)%nat
  || between 188 190 c || between 192 214 c || between 216 246 c
  || between 248 255 c.

(** The line boundaries of [str.splitlines()] other than CR and LF. *)
Definition is_line_break (c : ascii) : bool :=
  between 11 12 c || between 28 30 c || (code c =? 133)%nat.

Definition one_of (cs : list ascii) (c : ascii) : bool :=
  existsb (Ascii.eqb c) cs.

Definition none_of (cs : list ascii) (c : ascii) : bool :=
  negb (one_of cs c).

End Chars.

(** ** Python string methods *)

Module Py.
Import Chars.

Definition snoc (s : string) (c : ascii) : string := s +:+ String c EmptyString.

Definition is_empty (s : string) : bool :=
  match s with EmptyString => true | _ => false end.

Fixpoint startswith (p s : string) : bool :=
  match p, s with
  | EmptyString, _ => true
  | String a p', String b s' => Ascii.eqb a b && startswith p' s'
  | String _ _, EmptyString => false
  end.

Fixpoint drop (n : nat) (s : string) : string :=
  match n, s with
  | O, _ => s
  | S n', String _ s' => drop n' s'
  | S _, EmptyString => EmptyString
  end.

Fixpoint rev_acc (s acc : string) : string :=
  match s with
  | EmptyString => acc
  | String c s' => rev_acc s' (String c acc)
  end.

Definition rev (s : string) : string := rev_acc s EmptyString.

Definition endswith (suffix s : string) : bool :=
  startswith (rev suffix) (rev s).

(** [needle in s] *)
Fixpoint contains (needle s : string) : bool :=
  startswith needle s
  || match s with
     | EmptyString => false
     | String _ s' => contains needle s'
     end.

Fixpoint lstrip (s : string) : string :=
  match s with
  | String c s' => if is_space c then lstrip s' else s
  | EmptyString => EmptyString
  end.

Definition rstrip (s : string) : string := rev (lstrip (rev s)).

Definition strip (s : string) : string := rstrip (lstrip s).

(** Every character of [s] is in the class [p]. *)
Fixpoint all_chars (p : ascii -> bool) (s : string) : bool :=
  match s with
  | EmptyString => true
  | String c s' => p c && all_chars p s'
  end.

(** [s.split(sep)] for a one-character separator: every occurrence
    splits; the result is never empty. *)
Fixpoint split_on (sep : ascii) (cur : string) (s : string) : list string :=
  match s with
  | EmptyString => [cur]
  | String c s' =>
      if Ascii.eqb c sep then cur :: split_on sep EmptyString s'
      else split_on sep (snoc cur c) s'
  end.

Definition split (sep : ascii) (s : string) : list string :=
  split_on sep EmptyString s.

(** [s.split(sep, 1)]: [None] when [sep] does not occur (the result then
    has one element and unpacking it into two names raises). *)
Fixpoint split_once_on (sep : ascii) (cur : string) (s : string)
  : option (string * string) :=
  match s with
  | EmptyString => None
  | String c s' =>
      if Ascii.eqb c sep then Some (cur, s')
      else split_once_on sep (snoc cur c) s'
  end.

Definition split_once (sep : ascii) (s : string) : option (string * string) :=
  split_once_on sep EmptyString s.

(** [s.rfind(c)] for a character: the index of the last occurrence. *)
Fixpoint rfind_from (c : ascii) (i : nat) (s : string) : option nat :=
  match s with
  | EmptyString => None
  | String d s' =>
      match rfind_from c (S i) s' with
      | Some j => Some j
      | None => if Ascii.eqb d c then Some i else None
      end
  end.

Definition rfind (c : ascii) (s : string) : option nat := rfind_from c 0 s.

Fixpoint take (n : nat) (s : string) : string :=
  match n, s with
  | O, _ => EmptyString
  | S n', String c s' => String c (take n' s')
  | S _, EmptyString => EmptyString
  end.

(** [s.split(sep)[0]] *)
Fixpoint first_field (sep : ascii) (s : string) : string :=
  match s with
  | EmptyString => EmptyString
  | String c s' => if Ascii.eqb c sep then EmptyString else String c (first_field sep s')
  end.

Fixpoint indices_from (sep : ascii) (i : nat) (s : string) : list nat :=
  match s with
  | EmptyString => []
  | String c s' =>
      if Ascii.eqb c sep then i :: indices_from sep (S i) s'
      else indices_from sep (S i) s'
  end.

(** [s.rsplit(sep, maxsplit)[0]] for [maxsplit >= 1]: the text before
    the [maxsplit]-th separator from the right, or before the first one
    when there are fewer. *)
Definition rsplit_head (sep : ascii) (maxsplit : nat) (s : string) : string :=
  let idx := indices_from sep 0 s in
  match List.rev idx !! (maxsplit - 1)%nat with
  | Some i => take i s
  | None => match idx with
            | i :: _ => take i s
            | [] => s
            end
  end.

(** [s.splitlines()] *)
Fixpoint splitlines_on (cur : string) (s : string) : list string :=
  match s with
  | EmptyString => if is_empty cur then [] else [cur]
  | String c s' =>
      if Ascii.eqb c cr then
        match s' with
        | String d s'' =>
            if Ascii.eqb d lf then cur :: splitlines_on EmptyString s''
            else cur :: splitlines_on EmptyString s'
        | EmptyString => [cur]
        end
      else if Ascii.eqb c lf || is_line_break c then
        cur :: splitlines_on EmptyString s'
      else splitlines_on (snoc cur c) s'
  end.

Definition splitlines (s : string) : list string := splitlines_on EmptyString s.

(** The lines a text-mode file object yields (universal newlines): each
    line keeps its terminator, translated to LF. *)
Fixpoint readlines_on (cur : string) (s : string) : list string :=
  match s with
  | EmptyString => if is_empty cur then [] else [cur]
  | String c s' =>
      if Ascii.eqb c cr then
        match s' with
        | String d s'' =>
            if Ascii.eqb d lf then snoc cur lf :: readlines_on EmptyString s''
            else snoc cur lf :: readlines_on EmptyString s'
        | EmptyString => [snoc cur lf]
        end
      else if Ascii.eqb c lf then snoc cur lf :: readlines_on EmptyString s'
      else readlines_on (snoc cur c) s'
  end.

Definition readlines (s : string) : list string := readlines_on EmptyString s.

(** The text [read()] returns in text mode: CR LF and CR become LF. *)
Fixpoint universal_newlines (s : string) : string :=
  match s with
  | EmptyString => EmptyString
  | String c s' =>
      if Ascii.eqb c cr then
        match s' with
        | String d s'' =>
            if Ascii.eqb d lf then String lf (universal_newlines s'')
            else String lf (universal_newlines s')
        | EmptyString => String lf EmptyString
        end
      else String c (universal_newlines s')
  end.

End Py.

(** ** Regular expressions

    The patterns of the program are sequences of quantified character
    classes, word boundaries and capturing groups.  [match_here] is the
    backtracking matcher of Python's [re] restricted to them: quantifiers are
    greedy and give characters back one at a time. *)

Module Re.
Import Chars.

Inductive quant := One | Star | Plus.

Inductive item :=
| Bol                                   (* ^ *)
| Cls (p : ascii -> bool) (q : quant)   (* a class, with its quantifier *)
| WordB                                 (* \b *)
| GOpen                                 (* ( *)
| GClose.                               (* ) *)

Definition regex := list item.

Record caps := { closed : list string; current : option string }.

Definition no_caps : caps := {| closed := []; current := None |}.

Definition push (c : ascii) (cs : caps) : caps :=
  {| closed := closed cs; current := (fun g => Py.snoc g c) <$> current cs |}.

Definition open_group (cs : caps) : caps :=
  {| closed := closed cs; current := Some EmptyString |}.

Definition close_group (cs : caps) : caps :=
  {| closed := closed cs ++ match current cs with Some g => [g] | None => [] end;
     current := None |}.

Record matched := { groups : list string; last : option ascii; rest : string }.

Definition cont := option ascii -> string -> caps -> option matched.

Definition is_word_opt (c : option ascii) : bool :=
  match c with Some c => is_word c | None => false end.

Definition head (s : string) : option ascii :=
  match s with String c _ => Some c | EmptyString => None end.

Definition at_boundary (prev : option ascii) (s : string) : bool :=
  xorb (is_word_opt prev) (is_word_opt (head s)).

Fixpoint star (p : ascii -> bool) (k : cont)
         (prev : option ascii) (s : string) (cs : caps) : option matched :=
  match s with
  | String c r =>
      if p c then
        match star p k (Some c) r (push c cs) with
        | Some m => Some m
        | None => k prev s cs
        end
      else k prev s cs
  | EmptyString => k prev s cs
  end.

Definition one (p : ascii -> bool) (k : cont) : cont :=
  fun prev s cs =>
    match s with
    | String c r => if p c then k (Some c) r (push c cs) else None
    | EmptyString => None
    end.

Fixpoint match_here (re : regex) : cont :=
  match re with
  | [] => fun prev s cs => Some {| groups := closed cs; last := prev; rest := s |}
  | it :: re' =>
      let k := match_here re' in
      match it with
      | Bol => fun prev s cs => match prev with None => k prev s cs | Some _ => None end
      | Cls p One => one p k
      | Cls p Star => star p k
      | Cls p Plus => one p (star p k)
      | WordB => fun prev s cs => if at_boundary prev s then k prev s cs else None
      | GOpen => fun prev s cs => k prev s (open_group cs)
      | GClose => fun prev s cs => k prev s (close_group cs)
      end
  end.

(** [pattern.match(s)] *)
Definition match_ (re : regex) (s : string) : option matched :=
  match_here re None s no_caps.

(** [pattern.search(s)], started after [prev]: the leftmost match. *)
Fixpoint search_from (re : regex) (prev : option ascii) (s : string) : option matched :=
  match match_here re prev s no_caps with
  | Some m => Some m
  | None =>
      match s with
      | String c r => search_from re (Some c) r
      | EmptyString => None
      end
  end.

Definition search (re : regex) (s : string) : option matched :=
  search_from re None s.

(** [pattern.finditer(s)]: the successive non-overlapping matches; the
    patterns used with it match no empty string. *)
Fixpoint finditer_from (fuel : nat) (re : regex) (prev : option ascii) (s : string)
  : list matched :=
  match fuel with
  | O => []
  | S fuel' =>
      match search_from re prev s with
      | Some m => m :: finditer_from fuel' re (last m) (rest m)
      | None => []
      end
  end.

Definition finditer (re : regex) (s : string) : list matched :=
  finditer_from (S (String.length s)) re None s.

Definition chr (c : ascii) : item := Cls (Ascii.eqb c) One.

(** A literal, as [re.escape] produces. *)
Definition lit (s : string) : regex := chr <$> String.list_ascii_of_string s.

End Re.

(** ** The constants of the program *)

(** [INCLUDE_REGEX]: start of line, white space, [#], white space,
    [include], white space, group 1: one of [<] and the double quote,
    group 2: one or more characters other than [>] and the double quote,
    then one of [>] and the double quote. *)
Definition INCLUDE_REGEX : Re.regex :=
  [Re.Bol; Re.Cls Chars.is_space Re.Star; Re.chr "#"; Re.Cls Chars.is_space Re.Star]
  ++ Re.lit "include"
  ++ [Re.Cls Chars.is_space Re.Star;
      Re.GOpen; Re.Cls (Chars.one_of ["<"%char; Chars.dquote]) Re.One; Re.GClose;
      Re.GOpen; Re.Cls (Chars.none_of [">"%char; Chars.dquote]) Re.Plus; Re.GClose;
      Re.Cls (Chars.one_of [">"%char; Chars.dquote]) Re.One].

(** [LIB_REGEX = re.compile(r'/lib([^/]+)\.so')] *)
Definition LIB_REGEX : Re.regex :=
  Re.lit "/lib"
  ++ [Re.GOpen; Re.Cls (Chars.none_of ["/"%char]) Re.Plus; Re.GClose]
  ++ Re.lit ".so".

Definition IGNORE_PACKAGES : list string :=
  ["libc6-dev"; "glibc-devel"; "gcc-libs"; "libgcc";
   "libstdc++-11-dev"; "libstdc++-devel";
   "linux-libc-dev"].

Definition CPP_STANDARD_HEADERS : list string :=
  ["algorithm"; "any"; "array"; "atomic"; "bit"; "bitset"; "charconv";
   "chrono"; "codecvt"; "compare"; "complex"; "concepts"; "condition_variable";
   "coroutine"; "deque"; "exception"; "execution"; "filesystem"; "format";
   "forward_list"; "fstream"; "functional"; "future"; "initializer_list";
   "iomanip"; "ios"; "iosfwd"; "iostream"; "istream"; "iterator"; "limits";
   "list"; "locale"; "map"; "memory"; "memory_resource"; "mutex"; "new";
   "numbers"; "numeric"; "optional"; "ostream"; "queue"; "random"; "ranges";
   "ratio"; "regex"; "scoped_allocator"; "set"; "shared_mutex";
   "source_location"; "span"; "sstream"; "stack"; "stdexcept"; "streambuf";
   "string"; "string_view"; "syncstream"; "system_error"; "thread"; "tuple";
   "type_traits"; "typeindex"; "typeinfo"; "unordered_map"; "unordered_set";
   "utility"; "valarray"; "variant"; "vector"; "version";
   "cassert"; "cctype"; "cerrno"; "cfenv"; "cfloat"; "cinttypes"; "ciso646";
   "climits"; "clocale"; "cmath"; "csetjmp"; "csignal"; "cstdalign";
   "cstdarg"; "cstdbool"; "cstddef"; "cstdint"; "cstdio"; "cstdlib";
   "cstring"; "ctgmath"; "ctime"; "cuchar"; "cwchar"; "cwctype";
   "assert.h"; "ctype.h"; "errno.h"; "fenv.h"; "float.h"; "inttypes.h";
   "iso646.h"; "limits.h"; "locale.h"; "math.h"; "setjmp.h"; "signal.h";
   "stdalign.h"; "stdarg.h"; "stdbool.h"; "stddef.h"; "stdint.h";
   "stdio.h"; "stdlib.h"; "string.h"; "tgmath.h"; "time.h"; "uchar.h";
   "wchar.h"; "wctype.h"].

(** ** [os.path] on POSIX *)

Module posixpath.

Definition slash : ascii := "/"%char.

(** [isabs(p)] *)
Definition isabs (p : string) : bool := Py.startswith "/" p.

(** [join(a, b)] *)
Definition join (a b : string) : string :=
  if Py.startswith "/" b then b
  else if Py.is_empty a || Py.endswith "/" a then a +:+ b
  else a +:+ "/" +:+ b.

Fixpoint all_slashes (s : string) : bool :=
  match s with
  | EmptyString => true
  | String c s' => Ascii.eqb c slash && all_slashes s'
  end.

Fixpoint lstrip_slashes (s : string) : string :=
  match s with
  | String c s' => if Ascii.eqb c slash then lstrip_slashes s' else s
  | EmptyString => EmptyString
  end.

Definition rstrip_slashes (s : string) : string :=
  Py.rev (lstrip_slashes (Py.rev s)).

(** [dirname(p)]: everything up to the last slash, without trailing
    slashes unless it consists of slashes only. *)
Definition dirname (p : string) : string :=
  match Py.rfind slash p with
  | None => EmptyString
  | Some i =>
      let head := Py.take (S i) p in
      if all_slashes head then head else rstrip_slashes head
  end.

(** [splitext(p)]: the extension starts at the last dot of the last
    component, unless only dots precede it there. *)
Definition splitext (p : string) : string * string :=
  let filename_index := match Py.rfind slash p with Some i => S i | None => O end in
  match Py.rfind "." p with
  | Some dot_index =>
      if (filename_index <=? dot_index)%nat
         && negb (forallb (Ascii.eqb ".")
                    (String.list_ascii_of_string
                       (Py.take (dot_index - filename_index) (Py.drop filename_index p))))
      then (Py.take dot_index p, Py.drop dot_index p)
      else (p, EmptyString)
  | None => (p, EmptyString)
  end.

(** The loop of [normpath] over the components. *)
Fixpoint norm_comps (initial_slashes : nat) (new_comps : list string) (comps : list string)
  : list string :=
  match comps with
  | [] => new_comps
  | comp :: comps' =>
      if String.eqb comp EmptyString || String.eqb comp "." then
        norm_comps initial_slashes new_comps comps'
      else if negb (String.eqb comp "..")
              || ((initial_slashes =? 0)%nat && bool_decide (new_comps = []))
              || bool_decide (last new_comps = Some "..") then
        norm_comps initial_slashes (new_comps ++ [comp]) comps'
      else
        norm_comps initial_slashes (removelast new_comps) comps'
  end.

Fixpoint join_with (sep : string) (l : list string) : string :=
  match l with
  | [] => EmptyString
  | [x] => x
  | x :: l' => x +:+ sep +:+ join_with sep l'
  end.

(** [normpath(path)] *)
Definition normpath (path : string) : string :=
  if Py.is_empty path then "."
  else
    let initial_slashes :=
      if Py.startswith "/" path then
        if Py.startswith "//" path && negb (Py.startswith "///" path) then 2 else 1
      else 0 in
    let comps := norm_comps initial_slashes [] (Py.split slash path) in
    let p := join_with "/" comps in
    let p := match initial_slashes with
             | 0 => p | 1 => "/" +:+ p | _ => "//" +:+ p
             end in
    if Py.is_empty p then "." else p.

End posixpath.

(** ** The world a run reads: file system and external tools *)

(** A file is its text decoded as UTF-8 with undecodable bytes dropped,
    and whether every byte was decodable; a directory lists its entries in
    the order [os.scandir] reports them. *)
#[warnings="-register-all"]
Inductive node :=
| File (text : string) (utf8 : bool)
| Dir (entries : list (string * node)).

(** What the machine does with a command whose arguments can be handed
    to a process, as [subprocess.run(command, capture_output=True,
    text=True, check=True, encoding='utf-8')] sees it.  The two pipes are
    decoded, strictly, when the tool has exited and before its status is
    looked at: [stdout] is the decoded text of the standard output. *)
Inductive proc_result :=
| Completed (returncode : Z) (stdout : string)
    (* the tool ran and exited; what it wrote is UTF-8 on both pipes *)
| Undecodable (returncode : Z)
    (* the tool ran and exited; a pipe holds bytes that are not UTF-8 *)
| ToolMissing     (* FileNotFoundError *)
| LaunchFailure.  (* another error of the launch, such as PermissionError *)

Record World := {
  fs_root : node;
  cwd : string;
  subprocess_run : list string -> proc_result;
}.

Module FS.

Definition is_dir (n : node) : bool :=
  match n with Dir _ => true | File _ _ => false end.

Fixpoint lookup_entry (name : string) (es : list (string * node)) : option node :=
  match es with
  | [] => None
  | (n, x) :: es' => if String.eqb n name then Some x else lookup_entry name es'
  end.

(** Path resolution, component by component; [stack] holds the
    ancestors of [cur]. *)
Fixpoint walk_comps (stack : list node) (cur : node) (comps : list string) : option node :=
  match comps with
  | [] => Some cur
  | c :: cs =>
      match cur with
      | File _ _ => None
      | Dir es =>
          if String.eqb c EmptyString || String.eqb c "." then walk_comps stack cur cs
          else if String.eqb c ".." then
            match stack with
            | [] => walk_comps [] cur cs
            | parent :: stack' => walk_comps stack' parent cs
            end
          else
            match lookup_entry c es with
            | Some n => walk_comps (cur :: stack) n cs
            | None => None
            end
      end
  end.

Definition resolve (w : World) (path : string) : option node :=
  if Py.is_empty path then None
  else if posixpath.isabs path then
    walk_comps [] (fs_root w) (Py.split posixpath.slash path)
  else
    walk_comps [] (fs_root w)
      (Py.split posixpath.slash (cwd w) ++ Py.split posixpath.slash path).

(** [os.path.exists(path)] *)
Definition exists_ (w : World) (path : string) : bool :=
  bool_decide (is_Some (resolve w path)).

(** [os.path.abspath(path)] *)
Definition abspath (w : World) (path : string) : string :=
  posixpath.normpath
    (if posixpath.isabs path then path else posixpath.join (cwd w) path).

Definition dirs_of (es : list (string * node)) : list string :=
  fst <$> filter (fun e => is_dir (snd e) = true) es.

Definition files_of (es : list (string * node)) : list string :=
  fst <$> filter (fun e => is_dir (snd e) = false) es.

(** [os.walk(top)], top-down: a directory, then its sub-directories in
    listing order. *)
Fixpoint walk_node (top : string) (n : node) : list (string * list string * list string) :=
  match n with
  | File _ _ => []
  | Dir es =>
      (top, dirs_of es, files_of es)
      :: flat_map (fun e => walk_node (posixpath.join top (fst e)) (snd e)) es
  end.

Definition walk (w : World) (top : string) : list (string * list string * list string) :=
  match resolve w top with
  | Some n => walk_node top n
  | None => []
  end.

Inductive read_result :=
| ReadOk (text : string)
| NotFound        (* FileNotFoundError *)
| ReadFailure.    (* another exception: a directory, undecodable bytes *)

(** [open(path, 'r', encoding='utf-8', errors=...)] followed by reading
    the whole file; [strict] is the default error handling, otherwise
    [errors='ignore']. *)
Definition read (w : World) (path : string) (strict : bool) : read_result :=
  match resolve w path with
  | None => NotFound
  | Some (Dir _) => ReadFailure
  | Some (File text utf8) => if strict && negb utf8 then ReadFailure else ReadOk text
  end.

End FS.

(** ** Data of the engine *)

(** A candidate: the dictionary with the keys ['package'] and
    ['full_path'] that the backends build. *)
Record Candidate := { package : string; full_path : string }.

#[global] Instance Candidate_eq_dec : EqDecision Candidate.
Proof. solve_decision. Defined.

(** A header reference: [(header_name, quote_type)]. *)
Definition Header : Type := string * string.

Definition QUOTE : string := String Chars.dquote EmptyString.
Definition ANGLE : string := "<".

(** ** The lookup cache

    The store has the two tables of [_create_tables], each keyed by
    [(distro_id, name)].  A JSON column is modelled by the value it encodes:
    [json.dumps] and [json.loads] are inverse on lists of strings and on
    lists of string-valued dictionaries.  The store is assumed to have the
    current schema. *)

Inductive table := system_headers | packages.

Record Db := {
  rows_system_headers : gmap (string * string) (list Candidate);
  rows_packages : gmap (string * string) (list string * list string);
}.

Definition empty_db : Db :=
  {| rows_system_headers := ∅; rows_packages := ∅ |}.

Module Cache.

Record t := { enabled : bool; distro_id : string; conn : Db }.

(** What [set] accepts for a table, and what [get] returns for it. *)
Definition stored (tb : table) : Type :=
  match tb with
  | system_headers => list Candidate
  | packages => (gset string * gset string)%type
  end.

Definition loaded (tb : table) : Type :=
  match tb with
  | system_headers => list Candidate
  | packages => (list string * list string)%type
  end.

(** [Cache(distro_id, enabled)] over the store found on disk. *)
Definition init (store : Db) (distro : string) (on : bool) : t :=
  {| enabled := on; distro_id := distro; conn := store |}.

Definition get (self : t) (tb : table) (key : string) : option (loaded tb) :=
  if negb (enabled self) then None
  else
    match tb return option (loaded tb) with
    | system_headers => rows_system_headers (conn self) !! (distro_id self, key)
    | packages => rows_packages (conn self) !! (distro_id self, key)
    end.

Definition set (self : t) (tb : table) (key : string) : stored tb -> t :=
  match tb return stored tb -> t with
  | system_headers => fun value =>
      if negb (enabled self) then self
      else
        {| enabled := enabled self; distro_id := distro_id self;
           conn := {| rows_system_headers :=
                        <[(distro_id self, key) := value]> (rows_system_headers (conn self));
                      rows_packages := rows_packages (conn self) |} |}
  | packages => fun value =>
      if negb (enabled self) then self
      else
        let '(include_paths, libs) := value in
        {| enabled := enabled self; distro_id := distro_id self;
           conn := {| rows_system_headers := rows_system_headers (conn self);
                      rows_packages :=
                        <[(distro_id self, key) := (elements include_paths, elements libs)]>
                          (rows_packages (conn self)) |} |}
  end.

(** [Cache.clear()]: the store file is removed. *)
Definition clear (store : Db) : Db := empty_db.

End Cache.

(** ** Effects: the environment, uncaught exceptions, the trace *)

Inductive event :=
| Exec (command : list string)        (* [run_command] was called *)
| LocalLookup (filename : string)     (* the engine called [find_local_file] *)
| CandidatesQuery (header : string)   (* [pm.find_header_candidates] was called *)
| InfoQuery (package_name : string).  (* [pm.find_package_info] was called *)

#[global] Instance event_eq_dec : EqDecision event.
Proof. solve_decision. Defined.

Record Env := { cache : Cache.t; trace : list event }.

Inductive exn :=
| SubprocessFailure   (* an error of the launch that [run_command] lets through *)
| ValueError          (* [subprocess.run]: embedded null byte in an argument *)
| UnicodeDecodeError  (* [subprocess.run]: the output of the tool is not UTF-8 *)
| IndexError.

Inductive outcome (A : Type) :=
| Ok (a : A)
| Raise (e : exn).
Arguments Ok {A} a.
Arguments Raise {A} e.

Definition M (A : Type) : Type := Env -> outcome A * Env.

#[global] Instance M_ret : MRet M := fun A a env => (Ok a, env).

#[global] Instance M_bind : MBind M := fun A B k m env =>
  match m env with
  | (Ok a, env') => k a env'
  | (Raise e, env') => (Raise e, env')
  end.

Definition raise {A : Type} (e : exn) : M A := fun env => (Raise e, env).

Definition tell (ev : event) : M unit := fun env =>
  (Ok tt, {| cache := cache env; trace := trace env ++ [ev] |}).

Definition cache_get (tb : table) (key : string) : M (option (Cache.loaded tb)) :=
  fun env => (Ok (Cache.get (cache env) tb key), env).

Definition cache_set (tb : table) (key : string) (value : Cache.stored tb) : M unit :=
  fun env => (Ok tt, {| cache := Cache.set (cache env) tb key value; trace := trace env |}).

(** ** External queries *)

(** An argument with a NUL character cannot be handed to a process:
    [subprocess.run] raises [ValueError] before it looks for the tool. *)
Definition has_nul (argument : string) : bool :=
  negb (Py.all_chars (fun c => negb (Ascii.eqb c Ascii.zero)) argument).

(** [run_command]: standard output, stripped; the empty string when the
    tool exits with a non-zero status ([CalledProcessError]) or is missing
    ([FileNotFoundError]).  No other exception is caught: not the one for
    a NUL in an argument, not the one for output that is not UTF-8, which
    is raised whatever the status is. *)
Definition run_command (w : World) (command : list string) : M string :=
  tell (Exec command);;
  if existsb has_nul command then raise ValueError
  else
    match subprocess_run w command with
    | Completed returncode stdout =>
        if (returncode =? 0)%Z then mret (Py.strip stdout) else mret EmptyString
    | Undecodable _ => raise UnicodeDecodeError
    | ToolMissing => mret EmptyString
    | LaunchFailure => raise SubprocessFailure
    end.

(** The two operations of the abstract class [PackageManager]. *)
Record PackageManager := {
  pm_find_header_candidates : string -> M (list Candidate);
  pm_find_package_info : string -> M (gset string * gset string);
}.

Definition known_path (candidates : list Candidate) (path : string) : bool :=
  existsb (fun c => String.eqb (full_path c) path) candidates.

Definition has_header_extension (file_path : string) : bool :=
  Py.endswith ".h" file_path || Py.endswith ".hpp" file_path || Py.endswith ".hh" file_path.

(** The body shared by the three [find_package_info] loops: the include
    directory of a header under [/usr/include/], the name of a shared
    library. *)
Definition scan_package_file (acc : gset string * gset string) (file_path : string)
  : gset string * gset string :=
  let include_paths :=
    if Py.contains "/usr/include/" file_path && has_header_extension file_path
    then {[ posixpath.dirname file_path ]} ∪ acc.1 else acc.1 in
  let libs :=
    match Re.search LIB_REGEX file_path with
    | Some m => match Re.groups m with
                | lib :: _ => {[ lib ]} ∪ acc.2
                | [] => acc.2
                end
    | None => acc.2
    end in
  (include_paths, libs).

Module DebianManager.

Definition parse_line (candidates : list Candidate) (match_line : string) : list Candidate :=
  match Py.rfind ":" match_line with
  | None => candidates
  | Some last_colon_index =>
      let full_path := Py.strip (Py.drop (S last_colon_index) match_line) in
      let package_name := Py.first_field ":" (Py.take last_colon_index match_line) in
      if known_path candidates full_path then candidates
      else candidates ++ [{| package := package_name; full_path := full_path |}]
  end.

Definition find_header_candidates (w : World) (header : string) : M (list Candidate) :=
  output ← run_command w ["dpkg"; "-S"; "*/" +:+ header];
  if Py.is_empty output then mret []
  else mret (foldl parse_line [] (Py.splitlines output)).

Definition find_package_info (w : World) (package_name : string)
  : M (gset string * gset string) :=
  file_list ← run_command w ["dpkg"; "-L"; package_name];
  mret (foldl scan_package_file (∅, ∅) (Py.splitlines file_list)).

Definition manager (w : World) : PackageManager :=
  {| pm_find_header_candidates := find_header_candidates w;
     pm_find_package_info := find_package_info w |}.

End DebianManager.

Module RedHatManager.

Definition collect (header package_name : string)
           (candidates : list Candidate) (file_path : string) : list Candidate :=
  if Py.endswith ("/" +:+ header) file_path
  then candidates ++ [{| package := package_name; full_path := file_path |}]
  else candidates.

Definition find_header_candidates (w : World) (header : string) : M (list Candidate) :=
  output ← run_command w ["rpm"; "-qf"; "/usr/include/" +:+ header];
  package_name ←
    (if Py.is_empty output || Py.contains "not owned" output then
       output ← run_command w ["repoquery"; "--whatprovides"; "*/" +:+ header];
       if Py.is_empty output then mret None
       else match Py.splitlines output with
            | first :: _ => mret (Some (Py.rsplit_head "-" 2 first))
            | [] => raise IndexError
            end
     else mret (Some (Py.strip output)));
  match package_name with
  | None => mret []
  | Some package_name =>
      file_list ← run_command w ["rpm"; "-ql"; package_name];
      mret (foldl (collect header package_name) [] (Py.splitlines file_list))
  end.

Definition find_package_info (w : World) (package_name : string)
  : M (gset string * gset string) :=
  file_list ← run_command w ["rpm"; "-ql"; package_name];
  mret (foldl scan_package_file (∅, ∅) (Py.splitlines file_list)).

Definition manager (w : World) : PackageManager :=
  {| pm_find_header_candidates := find_header_candidates w;
     pm_find_package_info := find_package_info w |}.

End RedHatManager.

Module ArchManager.

Definition parse_line (header : string)
           (candidates : list Candidate) (line : string) : list Candidate :=
  match Py.split_once Chars.tab line with
  | None => candidates
  | Some (package_name, file_path) =>
      if Py.endswith ("/" +:+ header) file_path && negb (known_path candidates file_path)
      then candidates ++ [{| package := package_name; full_path := file_path |}]
      else candidates
  end.

Definition find_header_candidates (w : World) (header : string) : M (list Candidate) :=
  output ← run_command w ["pkgfile"; "-s"; header];
  if Py.is_empty output then mret []
  else mret (foldl (parse_line header) [] (Py.splitlines output)).

Definition scan_line (acc : gset string * gset string) (line : string)
  : gset string * gset string :=
  match Py.split_once " " line with
  | None => acc
  | Some (_, file_path) => scan_package_file acc file_path
  end.

Definition find_package_info (w : World) (package_name : string)
  : M (gset string * gset string) :=
  file_list ← run_command w ["pacman"; "-Ql"; package_name];
  mret (foldl scan_line (∅, ∅) (Py.splitlines file_list)).

Definition manager (w : World) : PackageManager :=
  {| pm_find_header_candidates := find_header_candidates w;
     pm_find_package_info := find_package_info w |}.

End ArchManager.

(** The backend chosen by [get_distro], with its distribution identity. *)
Inductive distro := debian | redhat | arch.

Definition distro_name (d : distro) : string :=
  match d with debian => "debian" | redhat => "redhat" | arch => "arch" end.

Definition manager_of (d : distro) (w : World) : PackageManager :=
  match d with
  | debian => DebianManager.manager w
  | redhat => RedHatManager.manager w
  | arch => ArchManager.manager w
  end.

(** ** Header extraction, symbol sampling, scoring, local lookup *)

(** The body of the loop over the lines in [extract_headers_from_file]. *)
Definition add_header (headers : gset Header) (line : string) : gset Header :=
  match Re.match_ INCLUDE_REGEX line with
  | Some m =>
      match Re.groups m with
      | [quote_type; header_name] => {[ (header_name, quote_type) ]} ∪ headers
      | _ => headers
      end
  | None => headers
  end.

(** [extract_headers_from_file]: a file that is missing or cannot be read
    gives the empty set. *)
Definition extract_headers_from_file (w : World) (file_path : string) : gset Header :=
  match FS.read w file_path false with
  | FS.ReadOk text => foldl add_header ∅ (Py.readlines text)
  | FS.NotFound => ∅
  | FS.ReadFailure => ∅
  end.

(** [symbol_regex]: a word boundary, group 1: an identifier, white
    space, an opening parenthesis. *)
Definition symbol_regex : Re.regex :=
  [Re.WordB; Re.GOpen; Re.Cls Chars.is_ident_start Re.One;
   Re.Cls Chars.is_ident_char Re.Star; Re.GClose;
   Re.Cls Chars.is_space Re.Star; Re.chr "("].

Definition add_symbol (symbols : gset string) (m : Re.matched) : gset string :=
  match Re.groups m with
  | symbol :: _ => {[ symbol ]} ∪ symbols
  | [] => symbols
  end.

(** [analyze_source_for_symbols]: the file is read with strict decoding;
    any failure gives the empty set. *)
Definition analyze_source_for_symbols (w : World) (file_path : string) : gset string :=
  match FS.read w file_path true with
  | FS.ReadOk text =>
      foldl add_symbol ∅ (Re.finditer symbol_regex (Py.universal_newlines text))
  | _ => ∅
  end.

(** The pattern [r'\b' + re.escape(symbol) + r'\b']. *)
Definition whole_word (symbol : string) : Re.regex :=
  [Re.WordB] ++ Re.lit symbol ++ [Re.WordB].

Definition occurs_in (header_content symbol : string) : bool :=
  bool_decide (is_Some (Re.search (whole_word symbol) header_content)).

(** [score_header_match]: the number of symbols that occur as whole
    words in the text of the header; 0 when it cannot be read. *)
Definition score_header_match (w : World) (source_symbols : gset string)
           (header_path : string) : nat :=
  match FS.read w header_path false with
  | FS.ReadOk text =>
      length (filter (fun symbol => occurs_in (Py.universal_newlines text) symbol = true)
                     (elements source_symbols))
  | _ => 0
  end.

(** [find_local_file]: the first directory of the walk that lists
    [filename] among its files. *)
Definition find_local_file (w : World) (filename start_dir : string) : option string :=
  (fun entry => posixpath.join entry.1.1 filename)
    <$> List.find (fun entry => bool_decide (filename ∈ entry.2)) (FS.walk w start_dir).

(** ** Cache-wrapped backend lookups *)

(** [find_header_candidates]: [if cached_candidates:] holds for a cached
    list that is not empty. *)
Definition find_header_candidates (header : string) (pm : PackageManager)
  : M (list Candidate) :=
  cached_candidates ← cache_get system_headers header;
  match cached_candidates with
  | Some (c :: cs) => mret (c :: cs)
  | _ =>
      tell (CandidatesQuery header);;
      candidates ← pm_find_header_candidates pm header;
      cache_set system_headers header candidates;;
      mret candidates
  end.

(** [find_package_info]: [if cached_info:] holds for every cached pair. *)
Definition find_package_info (package_name : string) (pm : PackageManager)
  : M (gset string * gset string) :=
  cached_info ← cache_get packages package_name;
  match cached_info with
  | Some cached_info =>
      mret (list_to_set cached_info.1, list_to_set cached_info.2)
  | None =>
      tell (InfoQuery package_name);;
      info ← pm_find_package_info pm package_name;
      cache_set packages package_name info;;
      mret info
  end.

(** ** The resolution loop of [main] *)

Record Locals := {
  all_source_files : gset string;
  all_include_paths : gset string;
  all_libs : gset string;
  processed_system_packages : gset string;
  processed_local_headers : gset string;
  headers_to_process : list Header;
}.

Definition set_worklist (l : list Header) (st : Locals) : Locals :=
  {| all_source_files := all_source_files st;
     all_include_paths := all_include_paths st;
     all_libs := all_libs st;
     processed_system_packages := processed_system_packages st;
     processed_local_headers := processed_local_headers st;
     headers_to_process := l |}.

(** [max(l, key=key)] on a non-empty list: the first element whose key
    is the largest. *)
Fixpoint max_from {A : Type} (key : A -> nat) (best : A) (l : list A) : A :=
  match l with
  | [] => best
  | x :: l' => if (key best <? key x)%nat then max_from key x l' else max_from key best l'
  end.

Definition ignored_package (package : string) : bool :=
  existsb (fun p => Py.startswith p package) IGNORE_PACKAGES.

Definition is_standard_header (header_name : string) : bool :=
  bool_decide (header_name ∈ CPP_STANDARD_HEADERS).

Section Engine.

Variable w : World.
Variable pm : PackageManager.
Variable main_source_file : string.

Definition project_root : string := posixpath.dirname main_source_file.

(** The inner [for h in new_headers] step. *)
Definition enqueue (st : Locals) (h : Header) : Locals :=
  if bool_decide (h.1 ∉ processed_local_headers st)
     && bool_decide (h ∉ headers_to_process st)
  then set_worklist (headers_to_process st ++ [h]) st
  else st.

(** The branch taken for a header found in the project tree. *)
Definition local_branch (st : Locals) (local_header_path : string) : Locals :=
  let abs_local_header_path := FS.abspath w local_header_path in
  let base_name := (posixpath.splitext abs_local_header_path).1 in
  let cpp_file := base_name +:+ ".cpp" in
  let st1 :=
    {| all_source_files :=
         if FS.exists_ w cpp_file then {[ cpp_file ]} ∪ all_source_files st
         else all_source_files st;
       all_include_paths :=
         {[ posixpath.dirname abs_local_header_path ]} ∪ all_include_paths st;
       all_libs := all_libs st;
       processed_system_packages := processed_system_packages st;
       processed_local_headers :=
         {[ abs_local_header_path ]} ∪ processed_local_headers st;
       headers_to_process := headers_to_process st |} in
  foldl enqueue st1 (elements (extract_headers_from_file w abs_local_header_path)).

(** [best_candidate]: the first candidate, or with several of them the
    one [max] picks by score. *)
Definition best_candidate (first : Candidate) (others : list Candidate) : Candidate :=
  match others with
  | [] => first
  | _ :: _ =>
      max_from (fun c => score_header_match w
                           (analyze_source_for_symbols w main_source_file)
                           (full_path c))
               first others
  end.

(** The branch taken for a header not found in the project tree. *)
Definition system_branch (st : Locals) (header_name : string) : M Locals :=
  candidates ← find_header_candidates header_name pm;
  match candidates with
  | [] => mret st
  | first :: others =>
      let package := package (best_candidate first others) in
      if bool_decide (package ∈ processed_system_packages st) || ignored_package package
      then mret st
      else
        info ← find_package_info package pm;
        mret {| all_source_files := all_source_files st;
                all_include_paths := all_include_paths st ∪ info.1;
                all_libs := all_libs st ∪ info.2;
                processed_system_packages := {[ package ]} ∪ processed_system_packages st;
                processed_local_headers := processed_local_headers st;
                headers_to_process := headers_to_process st |}
  end.

(** One iteration of [while headers_to_process], for the reference
    popped from the front; [st] holds the rest of the worklist. *)
Definition process_header (st : Locals) (h : Header) : M Locals :=
  let '(header_name, quote_type) := h in
  if is_standard_header header_name
     || bool_decide (header_name ∈ processed_local_headers st)
  then mret st
  else
    local_header_path ←
      (if String.eqb quote_type QUOTE then
         tell (LocalLookup header_name);;
         mret (find_local_file w header_name project_root)
       else mret None);
    match local_header_path with
    | Some path =>
        if Py.is_empty path then system_branch st header_name
        else mret (local_branch st path)
    | None => system_branch st header_name
    end.

(** One turn of the loop; nothing happens once the worklist is empty. *)
Definition step (st : Locals) : M Locals :=
  match headers_to_process st with
  | [] => mret st
  | h :: rest => process_header (set_worklist rest st) h
  end.

Fixpoint steps (n : nat) (st : Locals) : M Locals :=
  match n with
  | O => mret st
  | S n' => st' ← step st; steps n' st'
  end.

(** The [while] loop with a bound on the number of iterations: [None]
    when the worklist is not empty after [fuel] iterations. *)
Fixpoint run_loop (fuel : nat) (st : Locals) : M (option Locals) :=
  match headers_to_process st with
  | [] => mret (Some st)
  | h :: rest =>
      match fuel with
      | O => mret None
      | S fuel' =>
          st' ← process_header (set_worklist rest st) h;
          run_loop fuel' st'
      end
  end.

(** The state [main] enters the loop with. *)
Definition initial : Locals :=
  {| all_source_files := {[ main_source_file ]};
     all_include_paths := ∅;
     all_libs := ∅;
     processed_system_packages := ∅;
     processed_local_headers := ∅;
     headers_to_process := elements (extract_headers_from_file w main_source_file) |}.

Definition resolve_project (fuel : nat) : M (option Locals) :=
  run_loop fuel initial.

End Engine.

(** ** Compiler detection *)

(** The pattern of [get_compiler_version]: the word [version] or a
    closing parenthesis, white space, group 1: one or more digits, a dot.
    The two alternatives are the two patterns below; at a position the first
    is tried before the second. *)
Definition version_tail : Re.regex :=
  [Re.Cls Chars.is_space Re.Star;
   Re.GOpen; Re.Cls Chars.is_ascii_digit Re.Plus; Re.GClose; Re.chr "."].

Definition version_after_word : Re.regex := Re.lit "version" ++ version_tail.

Definition version_after_paren : Re.regex := [Re.chr ")"] ++ version_tail.

(** [re.search] for an alternation of two patterns: the leftmost
    position at which one of them matches, the first one tried first. *)
Fixpoint search_either (re1 re2 : Re.regex) (prev : option ascii) (s : string)
  : option Re.matched :=
  match Re.match_here re1 prev s Re.no_caps with
  | Some m => Some m
  | None =>
      match Re.match_here re2 prev s Re.no_caps with
      | Some m => Some m
      | None =>
          match s with
          | String c r => search_either re1 re2 (Some c) r
          | EmptyString => None
          end
      end
  end.

(** [int(s)] for a string of decimal digits. *)
Fixpoint int_from (acc : Z) (s : string) : Z :=
  match s with
  | EmptyString => acc
  | String c s' => int_from (10 * acc + Z.of_nat (Chars.code c - 48)) s'
  end.

Definition int (s : string) : Z := int_from 0 s.

(** [get_compiler_version]: the major version in the output of
    [compiler --version], if the tool answers and the output has one. *)
Definition get_compiler_version (w : World) (compiler : string) : M (option Z) :=
  output ← run_command w [compiler; "--version"];
  if Py.is_empty output then mret None
  else
    match search_either version_after_word version_after_paren None output with
    | Some m =>
        match Re.groups m with
        | digits :: _ => mret (Some (int digits))
        | [] => mret None
        end
    | None => mret None
    end.

(** [get_max_supported_standard]: [not compiler_version] holds for
    [None] and for 0. *)
Definition get_max_supported_standard (compiler_version : option Z) : option string :=
  match compiler_version with
  | None => None
  | Some v =>
      if (v =? 0)%Z then None
      else if (11 <=? v)%Z then Some "-std=c++20"
      else if (7 <=? v)%Z then Some "-std=c++17"
      else if (5 <=? v)%Z then Some "-std=c++14"
      else if (4 <=? v)%Z then Some "-std=c++11"
      else None
  end.

(** The two calls of [main] that choose the standard flag. *)
Definition detect_standard (w : World) (compiler : string) : M (option string) :=
  compiler_version ← get_compiler_version w compiler;
  mret (get_max_supported_standard compiler_version).

(** ** Distribution detection *)

(** [s.strip(chars)] for a set of one character. *)
Fixpoint lstrip_char (q : ascii) (s : string) : string :=
  match s with
  | String c s' => if Ascii.eqb c q then lstrip_char q s' else s
  | EmptyString => EmptyString
  end.

Definition strip_char (q : ascii) (s : string) : string :=
  Py.rev (lstrip_char q (Py.rev (lstrip_char q s))).

(** [s.split()]: the words between runs of white space. *)
Fixpoint words_on (cur : string) (s : string) : list string :=
  match s with
  | EmptyString => if Py.is_empty cur then [] else [cur]
  | String c s' =>
      if Chars.is_space c then
        if Py.is_empty cur then words_on EmptyString s'
        else cur :: words_on EmptyString s'
      else words_on (Py.snoc cur c) s'
  end.

Definition words (s : string) : list string := words_on EmptyString s.

Definition os_release : string := "/etc/os-release".

(** One line of the dictionary comprehension of [get_distro]: a line
    with an equals sign is split at the first one and assigns the
    trimmed, unquoted value to the trimmed key; [None] stands for the
    failure to unpack the split into two names. *)
Definition add_assignment (info : gmap string string) (line : string)
  : option (gmap string string) :=
  if Py.contains "=" line then
    match Py.split_once "=" line with
    | Some (k, v) => Some (<[Py.strip k := strip_char Chars.dquote (Py.strip v)]> info)
    | None => None
    end
  else Some info.

Definition os_release_info (lines : list string) : option (gmap string string) :=
  foldl (fun acc line => info ← acc; add_assignment info line) (Some ∅) lines.

(** The three tests of [get_distro] on [ID] and [ID_LIKE], in the order
    of the code. *)
Definition family (info : gmap string string) : option distro :=
  let distro_id := info !! "ID" in
  let id_like := words (default EmptyString (info !! "ID_LIKE")) in
  if bool_decide (distro_id ∈ [Some "debian"; Some "ubuntu"; Some "linuxmint"])
     || bool_decide ("debian" ∈ id_like) then Some debian
  else if bool_decide (distro_id ∈ [Some "fedora"; Some "centos"; Some "rhel"])
          || bool_decide ("fedora" ∈ id_like) then Some redhat
  else if bool_decide (distro_id = Some "arch")
          || bool_decide ("arch" ∈ id_like) then Some arch
  else None.

(** [get_distro]: the outer [None] is an exception that leaves the
    function (the file cannot be read as text), [Some None] the pair
    [(None, None)], and [Some (Some d)] the pair of [distro_name d] and
    [manager_of d].  The locale's encoding is taken to be UTF-8. *)
Definition get_distro (w : World) : option (option distro) :=
  if negb (FS.exists_ w os_release) then Some None
  else
    match FS.read w os_release true with
    | FS.ReadOk text => family <$> os_release_info (Py.readlines text)
    | _ => None
    end.

(** ** Vocabulary of the statements *)

(** The captures after the characters of [run] have been consumed. *)
Fixpoint pushs (run : string) (cs : Re.caps) : Re.caps :=
  match run with
  | EmptyString => cs
  | String c run' => pushs run' (Re.push c cs)
  end.

(** The character before the position reached after [run]. *)
Fixpoint last_of (prev : option ascii) (run : string) : option ascii :=
  match run with
  | EmptyString => prev
  | String c run' => last_of (Some c) run'
  end.

(** [s] does not continue a run of the class [p]. *)
Definition stops (p : ascii -> bool) (s : string) : Prop :=
  match s with
  | EmptyString => True
  | String c _ => p c = false
  end.

(** An include directive, piece by piece: white space, [#], white space,
    [include], white space, the opening delimiter, the name, the closing
    delimiter, the rest of the line. *)
Definition include_line (ws1 ws2 ws3 : string) (opening : ascii) (name : string)
           (closing : ascii) (tail : string) : string :=
  ws1 +:+ "#" +:+ ws2 +:+ "include" +:+ ws3
      +:+ String opening (name +:+ String closing tail).

(** A name the directive can carry: not empty, without [>] and without
    double quote. *)
Definition is_header_name (name : string) : bool :=
  negb (Py.is_empty name)
  && Py.all_chars (Chars.none_of [">"%char; Chars.dquote]) name.

(** The two ways the delimiters of a directive can disagree. *)
Definition mismatched (opening closing : ascii) : Prop :=
  (opening = "<"%char /\ closing = Chars.dquote)
  \/ (opening = Chars.dquote /\ closing = ">"%char).

(** [m] only appends to the trace, and every event it appends is in [P],
    whether [m] returns or raises. *)
Definition emits {A : Type} (P : event -> Prop) (m : M A) : Prop :=
  forall env, exists evs, trace (m env).2 = trace env ++ evs /\ Forall P evs.

Definition is_exec (ev : event) : Prop :=
  match ev with Exec _ => True | _ => False end.

(** The event is not a lookup, local or through the backend, of a
    standard header. *)
Definition not_for_standard_header (ev : event) : Prop :=
  match ev with
  | LocalLookup name | CandidatesQuery name => name ∉ CPP_STANDARD_HEADERS
  | _ => True
  end.

(** The iteration for the reference [h], started in [st] (the worklist
    without [h]) and [env], merges [info] as the information of
    [package_name]: the candidates for [h] are looked up in [env], after the
    event of the local lookup if there was one; [package_name] is the package
    of the selected candidate, neither ignored nor processed; [info] is what
    [find_package_info] returns for it in the environment the candidates
    lookup left; [st'] is [st] with [info] merged and the package marked. *)
Definition merges (w : World) (pm : PackageManager) (main_source_file : string)
           (st : Locals) (h : Header) (env : Env)
           (package_name : string) (info : gset string * gset string)
           (st' : Locals) (env' : Env) : Prop :=
  exists env0 first others env1,
    (env0 = env
     \/ env0 = {| cache := cache env; trace := trace env ++ [LocalLookup h.1] |})
    /\ find_header_candidates h.1 pm env0 = (Ok (first :: others), env1)
    /\ package_name = package (best_candidate w main_source_file first others)
    /\ ignored_package package_name = false
    /\ (package_name ∉ processed_system_packages st)
    /\ find_package_info package_name pm env1 = (Ok info, env')
    /\ st' = {| all_source_files := all_source_files st;
                all_include_paths := all_include_paths st ∪ info.1;
                all_libs := all_libs st ∪ info.2;
                processed_system_packages :=
                  {[ package_name ]} ∪ processed_system_packages st;
                processed_local_headers := processed_local_headers st;
                headers_to_process := headers_to_process st |}.

(** The shape of one iteration: the reference is dropped, or the local
    header found for it is recorded, or the information of one package is
    merged. *)
Inductive effect (w : World) (pm : PackageManager) (main_source_file : string)
          (st : Locals) (h : Header) (env : Env) (st' : Locals) (env' : Env) : Prop :=
| Dropped :
    st' = st -> effect w pm main_source_file st h env st' env'
| LocalHeader path :
    find_local_file w h.1 (project_root main_source_file) = Some path ->
    st' = local_branch w st path ->
    effect w pm main_source_file st h env st' env'
| PackageMerged package_name info :
    merges w pm main_source_file st h env package_name info st' env' ->
    effect w pm main_source_file st h env st' env'.

(** One of the first [n] iterations of the run from [st] and [env]
    merges [info] as the information of [package_name]. *)
Definition merged_during (w : World) (pm : PackageManager) (main_source_file : string)
           (n : nat) (st : Locals) (env : Env)
           (package_name : string) (info : gset string * gset string) : Prop :=
  exists k st1 env1 h rest st2 env2,
    (k < n)%nat
    /\ steps w pm main_source_file k st env = (Ok st1, env1)
    /\ headers_to_process st1 = h :: rest
    /\ step w pm main_source_file st1 env1 = (Ok st2, env2)
    /\ merges w pm main_source_file (set_worklist rest st1) h env1
              package_name info st2 env2.

(** The tool is missing, or it exited with a non-zero status and what it
    wrote is UTF-8. *)
Definition failed (r : proc_result) : bool :=
  match r with
  | Completed returncode _ => negb (returncode =? 0)%Z
  | ToolMissing => true
  | Undecodable _ | LaunchFailure => false
  end.

(** The query fails the way [run_command] absorbs: no argument of the
    command holds a NUL, and the tool is missing or exits with a non-zero
    status after output that is UTF-8. *)
Definition absorbed (w : World) (command : list string) : bool :=
  negb (existsb has_nul command) && failed (subprocess_run w command).


(** The values the cache is given and returns, as Python compares
    them: a list of candidates, a pair of sets, a pair of lists.  A list is
    never equal to a set. *)
Inductive pyvalue :=
| CandidateList (candidates : list Candidate)
| PairOfSets (include_paths libs : gset string)
| PairOfLists (include_paths libs : list string).

Definition given (tb : table) : Cache.stored tb -> pyvalue :=
  match tb with
  | system_headers => CandidateList
  | packages => fun value => PairOfSets value.1 value.2
  end.

Definition returned (tb : table) : Cache.loaded tb -> pyvalue :=
  match tb with
  | system_headers => CandidateList
  | packages => fun value => PairOfLists value.1 value.2
  end.



(** The environment of a first run: an enabled cache over an empty
    store, nothing traced yet. *)
Definition fresh_env (d : distro) : Env :=
  {| cache := Cache.init empty_db (distro_name d) true; trace := [] |}.

(** ** Example projects *)

Definition include_quoted (name : string) : string :=
  "#include " +:+ QUOTE +:+ name +:+ QUOTE +:+ String Chars.lf EmptyString.

(** A machine without package tools. *)
Definition no_tools (command : list string) : proc_result := ToolMissing.

(** A machine whose package tools run, exit with status 0 and print
    nothing. *)
Definition silent_tools (command : list string) : proc_result :=
  Completed 0 EmptyString.

(** [/proj/main.cpp] includes [b.h]; [b.h] includes [c.h] and [c.h]
    includes [b.h]. *)
Definition cycle_project : World :=
  {| fs_root :=
       Dir [("proj",
             Dir [("main.cpp", File (include_quoted "b.h" +:+ "int main() { return 0; }") true);
                  ("b.h", File (include_quoted "c.h") true);
                  ("c.h", File (include_quoted "b.h") true)])];
     cwd := "/proj";
     subprocess_run := no_tools |}.

Definition cycle_main : string := "/proj/main.cpp".

(** The state the loop keeps coming back to on [cycle_project], with
    [next] alone in the worklist. *)
Definition cycle_state (next : string) : Locals :=
  {| all_source_files := {[ "/proj/main.cpp" ]};
     all_include_paths := {[ "/proj" ]};
     all_libs := ∅;
     processed_system_packages := ∅;
     processed_local_headers := {[ "/proj/b.h" ]} ∪ {[ "/proj/c.h" ]};
     headers_to_process := [(next, QUOTE)] |}.

(** [/src/app.cpp] includes [util.h], which has a [util.cpp] next to it,
    and [<zlib.h>]. *)
Definition app_project (tools : list string -> proc_result) : World :=
  {| fs_root :=
       Dir [("src",
             Dir [("app.cpp",
                   File (include_quoted "util.h" +:+ "#include <zlib.h>" +:+ String Chars.lf EmptyString
                         +:+ "int main() { return helper(); }") true);
                  ("lib",
                   Dir [("util.h", File "int helper();" true);
                        ("util.cpp", File "int helper() { return 0; }" true)])])];
     cwd := "/src";
     subprocess_run := tools |}.

Definition app_main : string := "/src/app.cpp".

(** A Debian machine on which [dpkg -S] attributes [stdio_ext.h] to the
    C library development package, and no other query succeeds. *)
Definition libc_tools (command : list string) : proc_result :=
  if bool_decide (command = ["dpkg"; "-S"; "*/stdio_ext.h"])
  then Completed 0 "libc6-dev:amd64: /usr/include/stdio_ext.h"
  else ToolMissing.

(** [/src/app.cpp] calls [inflate] and [deflate]; two installed headers
    named [zlib.h], the second mentioning both symbols, the first only
    one. *)
Definition scoring_project : World :=
  {| fs_root :=
       Dir [("src",
             Dir [("app.cpp",
                   File "int main() { inflate(0); return deflate(0); }" true)]);
            ("usr",
             Dir [("include",
                   Dir [("a", Dir [("zlib.h", File "int inflate(int); int deflate_fast(int);" true)]);
                        ("b", Dir [("zlib.h", File "int inflate(int); int deflate(int);" true)])])])];
     cwd := "/src";
     subprocess_run := no_tools |}.

Definition candidate_a : Candidate :=
  {| package := "liba-dev"; full_path := "/usr/include/a/zlib.h" |}.

Definition candidate_b : Candidate :=
  {| package := "libb-dev"; full_path := "/usr/include/b/zlib.h" |}.




(** A Debian machine on which [zlib.h] belongs to [zlib1g-dev], whose
    header lies in [/usr/include], the directory that also holds the headers
    of the C library development package. *)
Definition shared_tools (command : list string) : proc_result :=
  if bool_decide (command = ["dpkg"; "-S"; "*/zlib.h"])
  then Completed 0 "zlib1g-dev:amd64: /usr/include/zlib.h"
  else if bool_decide (command = ["dpkg"; "-L"; "zlib1g-dev"])
  then Completed 0 ("/usr/include/zlib.h" +:+ String Chars.lf EmptyString
                    +:+ "/usr/lib/x86_64-linux-gnu/libz.so")
  else if bool_decide (command = ["dpkg"; "-L"; "libc6-dev"])
  then Completed 0 ("/usr/include/stdio.h" +:+ String Chars.lf EmptyString
                    +:+ "/usr/lib/x86_64-linux-gnu/libm.so")
  else ToolMissing.

(** [/src/app.cpp] includes [util.h], which has a [util.cc], a
    [util.cxx] and a [util.c] next to it, and no [util.cpp]. *)
Definition cc_project : World :=
  {| fs_root :=
       Dir [("src",
             Dir [("app.cpp",
                   File (include_quoted "util.h" +:+ "int main() { return helper(); }") true);
                  ("lib",
                   Dir [("util.h", File "int helper();" true);
                        ("util.cc", File "int helper() { return 0; }" true);
                        ("util.cxx", File "int helper2() { return 0; }" true);
                        ("util.c", File "int helper3() { return 0; }" true)])])];
     cwd := "/src";
     subprocess_run := no_tools |}.

(** ** Vocabulary of the further properties *)

(** The year of the standard a flag selects; 0 for no flag. *)
Definition standard_year (flag : option string) : nat :=
  match flag with
  | None => 0
  | Some f =>
      if String.eqb f "-std=c++11" then 11
      else if String.eqb f "-std=c++14" then 14
      else if String.eqb f "-std=c++17" then 17
      else if String.eqb f "-std=c++20" then 20
      else 0
  end.

(** A cache over the same store, opened for the distribution [d]. *)
Definition reopened (c : Cache.t) (d : string) : Cache.t :=
  Cache.init (Cache.conn c) d true.

(** [m] leaves the cache as it is. *)
Definition keeps_cache {A : Type} (m : M A) : Prop :=
  forall env, cache (m env).2 = cache env.

(** What a run may do to the cache: it keeps its mode and its
    distribution; a disabled cache stays as it is; an entry of the package
    table and a non-empty entry of the header table stay as they are. *)
Definition cache_extends (c c' : Cache.t) : Prop :=
  Cache.enabled c' = Cache.enabled c
  /\ Cache.distro_id c' = Cache.distro_id c
  /\ (Cache.enabled c = false -> c' = c)
  /\ (forall key info, Cache.get c packages key = Some info ->
                       Cache.get c' packages key = Some info)
  /\ (forall key x xs, Cache.get c system_headers key = Some (x :: xs) ->
                       Cache.get c' system_headers key = Some (x :: xs)).

(** The outputs agree with the resolved set: the entry file is a
    source, every other source is the existing [.cpp] file of a resolved
    header, and the directory of every resolved header is an include
    path. *)
Definition consistent_outputs (w : World) (main_source_file : string) (st : Locals) : Prop :=
  main_source_file ∈ all_source_files st
  /\ (forall p, p ∈ processed_local_headers st ->
                posixpath.dirname p ∈ all_include_paths st)
  /\ (forall f, f ∈ all_source_files st ->
                f = main_source_file
                \/ exists p, p ∈ processed_local_headers st
                             /\ f = (posixpath.splitext p).1 +:+ ".cpp"
                             /\ FS.exists_ w f = true).

(** [s] is an identifier: a letter or underscore followed by letters,
    digits and underscores. *)
Definition is_identifier (s : string) : bool :=
  match s with
  | EmptyString => false
  | String c s' => Chars.is_ident_start c && Py.all_chars Chars.is_ident_char s'
  end.

(** The package-information queries among the events, in order. *)
Definition info_queries (evs : list event) : list string :=
  omap (fun ev => match ev with InfoQuery p => Some p | _ => None end) evs.



Definition no_info_query (ev : event) : Prop :=
  match ev with InfoQuery _ => False | _ => True end.



(** The line assigns the key: it has an equals sign and the text before
    the first one is the key once trimmed. *)
Definition assigns (key line : string) : bool :=
  match Py.split_once "=" line with
  | Some (k, _) => String.eqb (Py.strip k) key
  | None => false
  end.

(** A machine whose [/etc/os-release] names Ubuntu, with Debian among
    the similar distributions. *)
Definition ubuntu_release : string :=
  "NAME=" +:+ String Chars.dquote "Ubuntu" +:+ String Chars.dquote (String Chars.lf
  "ID=ubuntu" +:+ String Chars.lf
  ("ID_LIKE=debian" +:+ String Chars.lf
   "# no more")).

Definition ubuntu_machine : World :=
  {| fs_root := Dir [("etc", Dir [("os-release", File ubuntu_release true)])];
     cwd := "/";
     subprocess_run := no_tools |}.

(** The output has a version marker followed by the digits: the word
    [version] or a closing parenthesis, white space if any, the digits
    and a dot. *)
Definition reports_version (output digits : string) : Prop :=
  digits <> EmptyString
  /\ Py.all_chars Chars.is_ascii_digit digits = true
  /\ exists before marker spaces after,
       output = before +:+ marker +:+ spaces +:+ digits +:+ "." +:+ after
       /\ (marker = "version" \/ marker = ")")
       /\ Py.all_chars Chars.is_space spaces = true.

(** A machine whose [g++] reports version 11.4.0. *)
Definition gxx_tools (command : list string) : proc_result :=
  if bool_decide (command = ["g++"; "--version"])
  then Completed 0 ("g++ (Ubuntu 11.4.0-1ubuntu1) 11.4.0" +:+ String Chars.lf EmptyString
                    +:+ "Copyright (C) 2021 Free Software Foundation, Inc."
                    +:+ String Chars.lf EmptyString)
  else ToolMissing.

(** * Properties *)

(** ** The matcher on greedy runs *)

Section Matcher.
Import Re.

Lemma append_nil (b : string) : EmptyString +:+ b = b.
Proof. reflexivity. Qed.

Lemma append_cons (x : ascii) (a b : string) : String x a +:+ b = String x (a +:+ b).
Proof. reflexivity. Qed.

Lemma append_assoc (a b c : string) : (a +:+ b) +:+ c = a +:+ (b +:+ c).
Proof.
  induction a as [|x a IH]; [reflexivity | now rewrite !append_cons, IH].
Qed.

Lemma append_empty_r (a : string) : a +:+ EmptyString = a.
Proof.
  induction a as [|x a IH]; [reflexivity | now rewrite append_cons, IH].
Qed.

Lemma pushs_outside_group run l :
  pushs run {| closed := l; current := None |} = {| closed := l; current := None |}.
Proof. induction run as [|c run IH]; cbn; [reflexivity | exact IH]. Qed.

Lemma pushs_inside_group run l g :
  pushs run {| closed := l; current := Some g |}
  = {| closed := l; current := Some (g +:+ run) |}.
Proof.
  revert g; induction run as [|c run IH]; intros g; cbn.
  - now rewrite append_empty_r.
  - change (push c {| closed := l; current := Some g |})
      with {| closed := l; current := Some (Py.snoc g c) |}.
    rewrite IH. unfold Py.snoc. now rewrite append_assoc, append_cons, append_nil.
Qed.

(** A starred class takes a whole run when the rest of the pattern
    matches after it. *)
Lemma star_takes_run p k run s m :
  Py.all_chars p run = true -> stops p s ->
  forall prev cs,
    k (last_of prev run) s (pushs run cs) = Some m ->
    star p k prev (run +:+ s) cs = Some m.
Proof.
  intros Hrun Hstop.
  induction run as [|c run IH]; intros prev cs Hk.
  - rewrite append_nil. cbn in Hk.
    destruct s as [|d s']; cbn; [exact Hk |].
    cbn in Hstop. now rewrite Hstop.
  - rewrite append_cons. cbn in Hrun, Hk |- *.
    apply andb_prop in Hrun as [Hc Hrun]. rewrite Hc.
    now rewrite (IH Hrun _ _ Hk).
Qed.

Lemma one_takes p k c s prev cs :
  p c = true -> one p k prev (String c s) cs = k (Some c) s (push c cs).
Proof. intros Hc. cbn. now rewrite Hc. Qed.

End Matcher.

(** ** Header extraction *)

Ltac norm_caps :=
  unfold Re.push, Re.open_group, Re.close_group;
  cbn [Re.closed Re.current fmap option_fmap option_map app].

Ltac norm_caps_in H :=
  unfold Re.push, Re.open_group, Re.close_group in H;
  cbn [Re.closed Re.current fmap option_fmap option_map app] in H.

Lemma include_regex_accepts ws1 ws2 ws3 opening name closing tail :
  Py.all_chars Chars.is_space ws1 = true ->
  Py.all_chars Chars.is_space ws2 = true ->
  Py.all_chars Chars.is_space ws3 = true ->
  Chars.one_of ["<"%char; Chars.dquote] opening = true ->
  Chars.one_of [">"%char; Chars.dquote] closing = true ->
  is_header_name name = true ->
  exists m,
    Re.match_ INCLUDE_REGEX (include_line ws1 ws2 ws3 opening name closing tail) = Some m
    /\ Re.groups m = [String opening EmptyString; name].
Proof.
  intros H1 H2 H3 Ho Hc Hn.
  apply andb_prop in Hn as [Hne Hn].
  destruct name as [|n0 name]; [discriminate Hne |].
  cbn in Hn. apply andb_prop in Hn as [Hn0 Hn].
  assert (Hospace : Chars.is_space opening = false).
  { unfold Chars.one_of in Ho; cbn in Ho.
    destruct (Ascii.eqb_spec opening "<"%char) as [->|_]; [reflexivity |].
    destruct (Ascii.eqb_spec opening Chars.dquote) as [->|_]; [reflexivity | discriminate Ho]. }
  assert (Hcstop : Chars.none_of [">"%char; Chars.dquote] closing = false).
  { unfold Chars.none_of. now rewrite Hc. }
  eexists. split.
  - unfold Re.match_, include_line, INCLUDE_REGEX.
    cbn [Re.match_here app Re.lit fmap list_fmap String.list_ascii_of_string Re.chr].
    eapply (star_takes_run _ _ ws1); [exact H1 | reflexivity |].
    unfold Re.no_caps. rewrite pushs_outside_group.
    rewrite ?append_cons, ?append_nil. rewrite one_takes by reflexivity.
    eapply (star_takes_run _ _ ws2); [exact H2 | reflexivity |].
    norm_caps. rewrite pushs_outside_group.
    rewrite ?append_cons, ?append_nil.
    do 7 (rewrite one_takes by reflexivity; norm_caps).
    eapply (star_takes_run _ _ ws3); [exact H3 | exact Hospace |].
    rewrite pushs_outside_group.
    norm_caps. rewrite one_takes by exact Ho.
    rewrite ?append_cons, ?append_nil. norm_caps. rewrite one_takes by exact Hn0.
    eapply (star_takes_run _ _ name); [exact Hn | exact Hcstop |].
    norm_caps. rewrite pushs_inside_group.
    rewrite one_takes by exact Hc.
    norm_caps. reflexivity.
  - reflexivity.
Qed.

Lemma add_header_union headers line :
  add_header headers line = add_header ∅ line ∪ headers.
Proof.
  unfold add_header.
  destruct (Re.match_ INCLUDE_REGEX line) as [m|]; [| set_solver].
  destruct (Re.groups m) as [|g1 [|g2 [|g3 gs]]]; set_solver.
Qed.

Lemma foldl_add_header_grows lines headers :
  headers ⊆ foldl add_header headers lines.
Proof.
  revert headers; induction lines as [|l lines IH]; intros headers; cbn; [done |].
  etrans; [| apply IH]. rewrite add_header_union. set_solver.
Qed.

Lemma foldl_add_header_line lines headers line h :
  line ∈ lines -> h ∈ add_header ∅ line -> h ∈ foldl add_header headers lines.
Proof.
  revert headers; induction lines as [|l lines IH]; intros headers Hin Hh.
  - inversion Hin.
  - cbn. apply elem_of_cons in Hin as [<-|Hin]; [| now apply IH].
    apply foldl_add_header_grows. rewrite add_header_union. set_solver.
Qed.

(** C10.  A directive whose delimiters disagree (an angle bracket closed
    by a double quote, or a double quote closed by an angle bracket) is still
    matched by [INCLUDE_REGEX], its groups being the opening delimiter and
    the name; so a file that contains such a line yields the pair (name,
    opening delimiter) from [extract_headers_from_file], whatever the closing
    character is. *)
Theorem mismatched_include_is_extracted ws1 ws2 ws3 opening name closing tail :
  Py.all_chars Chars.is_space ws1 = true ->
  Py.all_chars Chars.is_space ws2 = true ->
  Py.all_chars Chars.is_space ws3 = true ->
  is_header_name name = true ->
  mismatched opening closing ->
  (exists m,
      Re.match_ INCLUDE_REGEX (include_line ws1 ws2 ws3 opening name closing tail) = Some m
      /\ Re.groups m = [String opening EmptyString; name])
  /\ (forall w file_path text utf8,
         FS.resolve w file_path = Some (File text utf8) ->
         include_line ws1 ws2 ws3 opening name closing tail ∈ Py.readlines text ->
         (name, String opening EmptyString) ∈ extract_headers_from_file w file_path).
Proof.
  intros H1 H2 H3 Hn Hm.
  assert (Hacc : exists m,
             Re.match_ INCLUDE_REGEX (include_line ws1 ws2 ws3 opening name closing tail) = Some m
             /\ Re.groups m = [String opening EmptyString; name]).
  { destruct Hm as [[-> ->]|[-> ->]]; now apply include_regex_accepts. }
  split; [exact Hacc |].
  intros w file_path text utf8 Hres Hline.
  unfold extract_headers_from_file, FS.read. rewrite Hres. cbn.
  eapply foldl_add_header_line; [exact Hline |].
  destruct Hacc as (m & Hmatch & Hgroups).
  unfold add_header. rewrite Hmatch, Hgroups. set_solver.
Qed.

(** ** Traces of the engine *)

Section Emits.
Context {A B : Type}.
Implicit Types (P Q : event -> Prop).

Lemma emits_ret P (a : A) : emits P (mret a).
Proof. intros env. exists []. cbn. now rewrite app_nil_r. Qed.

Lemma emits_raise P e : emits P (raise e : M A).
Proof. intros env. exists []. cbn. now rewrite app_nil_r. Qed.

Lemma emits_bind P (m : M A) (k : A -> M B) :
  emits P m -> (forall a, emits P (k a)) -> emits P (m ≫= k).
Proof.
  intros Hm Hk env. unfold mbind, M_bind.
  destruct (Hm env) as (evs1 & E1 & F1).
  destruct (m env) as [[a|e] env1]; cbn in *.
  - destruct (Hk a env1) as (evs2 & E2 & F2).
    exists (evs1 ++ evs2). split; [| now apply Forall_app].
    now rewrite E2, E1, app_assoc.
  - now exists evs1.
Qed.

Lemma emits_weaken P Q (m : M A) :
  (forall ev, P ev -> Q ev) -> emits P m -> emits Q m.
Proof.
  intros HPQ Hm env. destruct (Hm env) as (evs & E & F).
  exists evs. split; [exact E |]. eapply Forall_impl; eauto.
Qed.

End Emits.

Lemma emits_tell (P : event -> Prop) ev : P ev -> emits P (tell ev).
Proof. intros H env. exists [ev]. cbn. split; [reflexivity | now constructor]. Qed.

Lemma emits_cache_get P tb key : emits P (cache_get tb key).
Proof. intros env. exists []. cbn. now rewrite app_nil_r. Qed.

Lemma emits_cache_set P tb key value : emits P (cache_set tb key value).
Proof. intros env. exists []. cbn. now rewrite app_nil_r. Qed.

Create HintDb emits.
#[local] Hint Resolve emits_ret emits_raise emits_cache_get emits_cache_set : emits.

Ltac emits_cases :=
  repeat first
    [ solve [auto with emits]
    | apply emits_bind; [| intros ?]
    | match goal with
      | |- emits _ (if ?b then _ else _) => destruct b
      | |- emits _ (match ?x with _ => _ end) => destruct x
      end ].

Lemma emits_run_command w command : emits is_exec (run_command w command).
Proof.
  unfold run_command. apply emits_bind; [now apply emits_tell | intros _].
  emits_cases.
Qed.

Lemma emits_manager d w :
  (forall header, emits is_exec (pm_find_header_candidates (manager_of d w) header))
  /\ (forall package_name, emits is_exec (pm_find_package_info (manager_of d w) package_name)).
Proof.
  destruct d; cbn; split; intros x.
  - unfold DebianManager.find_header_candidates.
    apply emits_bind; [apply emits_run_command | intros ?]. emits_cases.
  - unfold DebianManager.find_package_info.
    apply emits_bind; [apply emits_run_command | intros ?]. emits_cases.
  - unfold RedHatManager.find_header_candidates.
    apply emits_bind; [apply emits_run_command | intros ?].
    apply emits_bind.
    + destruct (_ || _); [| emits_cases].
      apply emits_bind; [apply emits_run_command | intros ?]. emits_cases.
    + intros [p|]; [| emits_cases].
      apply emits_bind; [apply emits_run_command | intros ?]. emits_cases.
  - unfold RedHatManager.find_package_info.
    apply emits_bind; [apply emits_run_command | intros ?]. emits_cases.
  - unfold ArchManager.find_header_candidates.
    apply emits_bind; [apply emits_run_command | intros ?]. emits_cases.
  - unfold ArchManager.find_package_info.
    apply emits_bind; [apply emits_run_command | intros ?]. emits_cases.
Qed.

Section EngineTraces.
Variable w : World.
Variable d : distro.
Variable main_source_file : string.

Lemma exec_not_for_standard_header ev : is_exec ev -> not_for_standard_header ev.
Proof. now destruct ev. Qed.

Lemma emits_find_header_candidates header :
  header ∉ CPP_STANDARD_HEADERS ->
  emits not_for_standard_header (find_header_candidates header (manager_of d w)).
Proof.
  intros Hh. unfold find_header_candidates.
  apply emits_bind; [apply (emits_cache_get _ system_headers) | intros [[|c cs]|]].
  2: apply emits_ret.
  all: apply emits_bind; [now apply emits_tell | intros _].
  all: apply emits_bind;
    [eapply emits_weaken; [apply exec_not_for_standard_header | apply emits_manager]
    | intros ?].
  all: apply emits_bind; [apply (emits_cache_set _ system_headers) | intros _].
  all: apply emits_ret.
Qed.

Lemma emits_find_package_info package_name :
  emits not_for_standard_header (find_package_info package_name (manager_of d w)).
Proof.
  unfold find_package_info.
  apply emits_bind; [apply (emits_cache_get _ packages) | intros [info|]];
    [apply emits_ret |].
  apply emits_bind; [now apply emits_tell | intros _].
  apply emits_bind;
    [eapply emits_weaken; [apply exec_not_for_standard_header | apply emits_manager]
    | intros ?].
  apply emits_bind; [apply (emits_cache_set _ packages) | intros _].
  apply emits_ret.
Qed.

Lemma emits_system_branch st header :
  header ∉ CPP_STANDARD_HEADERS ->
  emits not_for_standard_header (system_branch w (manager_of d w) main_source_file st header).
Proof.
  intros Hh. unfold system_branch.
  apply emits_bind; [now apply emits_find_header_candidates | intros [|first others]].
  - apply emits_ret.
  - destruct (_ || _); [apply emits_ret |].
    apply emits_bind; [apply emits_find_package_info | intros ?]. apply emits_ret.
Qed.

Lemma emits_process_header st h :
  emits not_for_standard_header (process_header w (manager_of d w) main_source_file st h).
Proof.
  destruct h as [header_name quote_type]. unfold process_header.
  unfold is_standard_header. case_bool_decide as Hstd; cbn [orb]; [apply emits_ret |].
  destruct (bool_decide _); [apply emits_ret |].
  apply emits_bind.
  - destruct (String.eqb _ _); [| apply emits_ret].
    apply emits_bind; [now apply emits_tell | intros _; apply emits_ret].
  - intros [path|]; [destruct (Py.is_empty path) |];
      try apply emits_ret; now apply emits_system_branch.
Qed.

Lemma emits_step st : emits not_for_standard_header (step w (manager_of d w) main_source_file st).
Proof.
  unfold step. destruct (headers_to_process st); [apply emits_ret |].
  apply emits_process_header.
Qed.

Lemma emits_steps n st : emits not_for_standard_header (steps w (manager_of d w) main_source_file n st).
Proof.
  revert st; induction n as [|n IH]; intros st; cbn; [apply emits_ret |].
  apply emits_bind; [apply emits_step | exact IH].
Qed.

End EngineTraces.

(** C3.  A reference to a standard header is dropped as soon as it is
    popped: the iteration changes nothing but the worklist, performs no local
    lookup and no backend query.  Over any number of iterations from any
    state, with any of the three backends, no local lookup and no candidate
    query is ever made for a name of the standard header set. *)
Theorem standard_header_never_looked_up
        w d main_source_file st header_name quote_type rest env :
  header_name ∈ CPP_STANDARD_HEADERS ->
  headers_to_process st = (header_name, quote_type) :: rest ->
  step w (manager_of d w) main_source_file st env = (Ok (set_worklist rest st), env)
  /\ (forall n st0 env0,
         exists evs,
           trace (steps w (manager_of d w) main_source_file n st0 env0).2 = trace env0 ++ evs
           /\ Forall not_for_standard_header evs
           /\ (CandidatesQuery header_name ∉ evs)
           /\ (LocalLookup header_name ∉ evs)).
Proof.
  intros Hstd Hpop. split.
  - unfold step. rewrite Hpop. unfold process_header, is_standard_header.
    now rewrite bool_decide_true.
  - intros n st0 env0.
    destruct (emits_steps w d main_source_file n st0 env0) as (evs & E & F).
    exists evs. repeat split; [exact E | exact F | |].
    + intros Hin. rewrite Forall_forall in F. exact (F _ Hin Hstd).
    + intros Hin. rewrite Forall_forall in F. exact (F _ Hin Hstd).
Qed.

(** ** Disambiguation *)

Lemma max_from_first_maximum {A : Type} (key : A -> nat) (l : list A) (best : A) :
  exists before after,
    best :: l = before ++ max_from key best l :: after
    /\ Forall (fun x => key x < key (max_from key best l))%nat before
    /\ Forall (fun x => key x <= key (max_from key best l))%nat after.
Proof.
  revert best; induction l as [|x l IH]; intros best; cbn [max_from].
  - exists [], []. repeat split; constructor.
  - destruct (Nat.ltb_spec (key best) (key x)) as [Hlt|Hge].
    + destruct (IH x) as (before & after & E & Hb & Ha).
      exists (best :: before), after. split; [cbn; now rewrite E |].
      split; [| exact Ha]. constructor; [| exact Hb].
      destruct before as [|y before]; cbn in E.
      * injection E as E _. now rewrite <- E.
      * injection E as E _. subst y. inversion Hb; subst. lia.
    + destruct (IH best) as (before & after & E & Hb & Ha).
      destruct before as [|y before]; cbn in E.
      * injection E as E1 E2. exists [], (x :: after).
        split; [cbn; now rewrite <- E1, <- E2 |].
        split; [constructor |]. constructor; [| exact Ha]. rewrite <- E1. exact Hge.
      * injection E as E1 E2. subst y. exists (best :: x :: before), after.
        split; [cbn; do 2 f_equal; exact E2 |]. split; [| exact Ha].
        inversion Hb; subst. constructor; [assumption |]. constructor; [lia | assumption].
Qed.

(** C4.  With more than one candidate the engine selects, for the symbol
    set of the entry file and the texts of the candidate headers as they
    are, a candidate of the list whose whole-word match count is the largest;
    every candidate before it in backend order has a strictly smaller count,
    so among equal largest counts the first one is taken; in particular a
    candidate whose count is strictly above all the others is the one
    selected. *)
Theorem best_candidate_first_of_highest_score w main_source_file first others :
  (1 < length (first :: others))%nat ->
  let score c :=
    score_header_match w (analyze_source_for_symbols w main_source_file) (full_path c) in
  let best := best_candidate w main_source_file first others in
  (exists before after,
      first :: others = before ++ best :: after
      /\ Forall (fun c => score c < score best)%nat before
      /\ Forall (fun c => score c <= score best)%nat after)
  /\ (forall before c after,
         first :: others = before ++ c :: after ->
         Forall (fun c' => score c' < score c)%nat (before ++ after) ->
         best = c).
Proof.
  intros Hlen score best.
  assert (Hdec : exists before after,
             first :: others = before ++ best :: after
             /\ Forall (fun c => score c < score best)%nat before
             /\ Forall (fun c => score c <= score best)%nat after).
  { subst best. unfold best_candidate.
    destruct others as [|second others]; [cbn in Hlen; lia |].
    apply (max_from_first_maximum score). }
  split; [exact Hdec |].
  intros before c after E Hstrict.
  destruct Hdec as (before' & after' & E' & Hb & Ha).
  apply Forall_app in Hstrict as [Hsb Hsa].
  assert (Hbest : (score c <= score best)%nat).
  { assert (Hin : c ∈ before' ++ best :: after') by (rewrite <- E', E; set_solver).
    apply elem_of_app in Hin as [Hin|Hin].
    - rewrite Forall_forall in Hb. specialize (Hb _ Hin). cbn in Hb. lia.
    - apply elem_of_cons in Hin as [->|Hin]; [lia |].
      rewrite Forall_forall in Ha. exact (Ha _ Hin). }
  assert (Hin : best ∈ before ++ c :: after) by (rewrite <- E, E'; set_solver).
  apply elem_of_app in Hin as [Hin|Hin].
  - rewrite Forall_forall in Hsb. specialize (Hsb _ Hin). cbn in Hsb. lia.
  - apply elem_of_cons in Hin as [->|Hin]; [reflexivity |].
    rewrite Forall_forall in Hsa. specialize (Hsa _ Hin). cbn in Hsa. lia.
Qed.

(** ** The lookup cache *)

(** C6, as amended.  With an enabled cache, [set] followed by [get] for
    the same distribution, table and key returns: for header candidates, the
    list that was stored; for package information, not the two sets that
    were stored but two lists of their elements, each element once, which
    converted back to sets are the sets that were stored.  The same holds
    when the store is reopened by a later process under the same
    distribution identity.  With a disabled cache [set] stores nothing and
    [get] returns nothing, whatever the table and the key. *)
Theorem cache_round_trip_by_mode (c : Cache.t) (key : string)
        (candidates : list Candidate) (include_paths libs : gset string) :
  (Cache.enabled c = true ->
   Cache.get (Cache.set c system_headers key candidates) system_headers key
   = Some candidates
   /\ Cache.get (Cache.set c packages key (include_paths, libs)) packages key
      = Some (elements include_paths, elements libs)
   /\ NoDup (elements include_paths) /\ NoDup (elements libs)
   /\ list_to_set (elements include_paths) = include_paths
   /\ list_to_set (elements libs) = libs
   /\ Cache.get (Cache.init (Cache.conn (Cache.set c system_headers key candidates))
                            (Cache.distro_id c) true) system_headers key
      = Some candidates
   /\ Cache.get (Cache.init (Cache.conn (Cache.set c packages key (include_paths, libs)))
                            (Cache.distro_id c) true) packages key
      = Some (elements include_paths, elements libs))
  /\ (Cache.enabled c = false ->
      forall (tb : table) (value : Cache.stored tb),
        Cache.set c tb key value = c
        /\ forall (tb' : table) (key' : string),
             Cache.get (Cache.set c tb key value) tb' key' = None).
Proof.
  split.
  - intros Hon. unfold Cache.get, Cache.set, Cache.init. rewrite Hon. cbn.
    rewrite !lookup_insert_eq.
    repeat split; try reflexivity;
      first [apply NoDup_elements | apply list_to_set_elements_L].
  - intros Hoff tb value.
    assert (Hset : Cache.set c tb key value = c).
    { unfold Cache.set. destruct tb; rewrite Hoff; reflexivity. }
    split; [exact Hset |]. intros tb' key'. rewrite Hset.
    unfold Cache.get. now rewrite Hoff.
Qed.

(** ** What an iteration changes *)

Section Iteration.
Variable w : World.
Variable pm : PackageManager.
Variable main_source_file : string.

Lemma foldl_enqueue_outputs hs st :
  let st' := foldl enqueue st hs in
  all_source_files st' = all_source_files st
  /\ all_include_paths st' = all_include_paths st
  /\ all_libs st' = all_libs st
  /\ processed_system_packages st' = processed_system_packages st
  /\ processed_local_headers st' = processed_local_headers st.
Proof.
  revert st; induction hs as [|h hs IH]; intros st; cbn; [done |].
  destruct (IH (enqueue st h)) as (E1 & E2 & E3 & E4 & E5).
  rewrite E1, E2, E3, E4, E5. unfold enqueue.
  destruct (_ && _); done.
Qed.

Lemma local_branch_outputs st path :
  let st' := local_branch w st path in
  let abs_path := FS.abspath w path in
  let cpp_file := (posixpath.splitext abs_path).1 +:+ ".cpp" in
  all_source_files st'
  = (if FS.exists_ w cpp_file then {[ cpp_file ]} ∪ all_source_files st
     else all_source_files st)
  /\ all_include_paths st' = {[ posixpath.dirname abs_path ]} ∪ all_include_paths st
  /\ all_libs st' = all_libs st
  /\ processed_system_packages st' = processed_system_packages st
  /\ processed_local_headers st' = {[ abs_path ]} ∪ processed_local_headers st.
Proof.
  cbn zeta. unfold local_branch.
  match goal with |- context [foldl enqueue ?s ?l] =>
    destruct (foldl_enqueue_outputs l s) as (E1 & E2 & E3 & E4 & E5) end.
  rewrite E1, E2, E3, E4, E5. done.
Qed.

Lemma system_branch_effect st h env0 env st' env' :
  env0 = env
  \/ env0 = {| cache := cache env; trace := trace env ++ [LocalLookup h.1] |} ->
  system_branch w pm main_source_file st h.1 env0 = (Ok st', env') ->
  effect w pm main_source_file st h env st' env'.
Proof.
  intros Henv. unfold system_branch, mbind, M_bind.
  destruct (find_header_candidates h.1 pm env0) as [[[|first others]|e] env1] eqn:Hcand;
    [| | discriminate].
  - intros [= <- _]. now apply Dropped.
  - case_bool_decide as Hseen; cbn [orb].
    { intros [= <- _]. now apply Dropped. }
    destruct (ignored_package _) eqn:Hig.
    { intros [= <- _]. now apply Dropped. }
    destruct (find_package_info _ pm env1) as [[info|e] env2] eqn:Hinfo; [| discriminate].
    intros [= <- <-]. eapply PackageMerged.
    exists env0, first, others, env1. repeat split; eauto.
Qed.

Lemma process_header_effect st h env st' env' :
  process_header w pm main_source_file st h env = (Ok st', env') ->
  effect w pm main_source_file st h env st' env'.
Proof.
  destruct h as [header_name quote_type]. unfold process_header.
  destruct (_ || _).
  { intros [= <- _]. now apply Dropped. }
  unfold mbind, M_bind.
  destruct (String.eqb quote_type QUOTE); cbn.
  - destruct (find_local_file _ _ _) as [path|] eqn:Hfind; [destruct (Py.is_empty path) |].
    + apply (system_branch_effect st (header_name, quote_type)). now right.
    + intros [= <- _]. eapply LocalHeader; [exact Hfind | reflexivity].
    + apply (system_branch_effect st (header_name, quote_type)). now right.
  - apply (system_branch_effect st (header_name, quote_type)). now left.
Qed.

Lemma merges_outputs st h env package_name info st' env' :
  merges w pm main_source_file st h env package_name info st' env' ->
  all_source_files st' = all_source_files st
  /\ all_include_paths st' = all_include_paths st ∪ info.1
  /\ all_libs st' = all_libs st ∪ info.2
  /\ processed_system_packages st' = {[ package_name ]} ∪ processed_system_packages st
  /\ processed_local_headers st' = processed_local_headers st
  /\ ignored_package package_name = false.
Proof.
  intros (env0 & first & others & env1 & _ & _ & _ & Hig & _ & _ & ->).
  cbn. repeat split. exact Hig.
Qed.

Lemma effect_grows st h env st' env' :
  effect w pm main_source_file st h env st' env' ->
  all_source_files st ⊆ all_source_files st'
  /\ all_include_paths st ⊆ all_include_paths st'
  /\ all_libs st ⊆ all_libs st'.
Proof.
  intros [->|path _ ->|package_name info Hm].
  - done.
  - destruct (local_branch_outputs st path) as (E1 & E2 & E3 & _).
    rewrite E1, E2, E3. destruct (FS.exists_ _ _); set_solver.
  - apply merges_outputs in Hm as (E1 & E2 & E3 & _).
    rewrite E1, E2, E3. set_solver.
Qed.

Lemma step_effect st env st' env' :
  step w pm main_source_file st env = (Ok st', env') ->
  st' = st \/ exists h rest,
      headers_to_process st = h :: rest
      /\ effect w pm main_source_file (set_worklist rest st) h env st' env'.
Proof.
  unfold step. destruct (headers_to_process st) as [|h rest] eqn:E.
  - intros [= <- _]. now left.
  - intros H. right. exists h, rest. split; [reflexivity |].
    eapply process_header_effect, H.
Qed.

Lemma step_grows st env st' env' :
  step w pm main_source_file st env = (Ok st', env') ->
  all_source_files st ⊆ all_source_files st'
  /\ all_include_paths st ⊆ all_include_paths st'
  /\ all_libs st ⊆ all_libs st'.
Proof.
  intros H. apply step_effect in H as [->|(h & rest & _ & Heff)]; [done |].
  now apply effect_grows in Heff.
Qed.

Lemma steps_grow n st env st' env' :
  steps w pm main_source_file n st env = (Ok st', env') ->
  all_source_files st ⊆ all_source_files st'
  /\ all_include_paths st ⊆ all_include_paths st'
  /\ all_libs st ⊆ all_libs st'.
Proof.
  revert st env; induction n as [|n IH]; intros st env; cbn.
  - intros [= <- _]. done.
  - unfold mbind, M_bind.
    destruct (step w pm main_source_file st env) as [[st1|e] env1] eqn:E1; [| discriminate].
    intros H. apply step_grows in E1 as (A1 & A2 & A3).
    apply IH in H as (B1 & B2 & B3). repeat split; set_solver.
Qed.

Lemma steps_keep_ignored_out n st env st' env' :
  (forall p, p ∈ processed_system_packages st -> ignored_package p = false) ->
  steps w pm main_source_file n st env = (Ok st', env') ->
  forall p, p ∈ processed_system_packages st' -> ignored_package p = false.
Proof.
  revert st env; induction n as [|n IH]; intros st env Hinv; cbn.
  - intros [= <- _]. exact Hinv.
  - unfold mbind, M_bind.
    destruct (step w pm main_source_file st env) as [[st1|e] env1] eqn:E1; [| discriminate].
    apply IH. intros p Hp.
    apply step_effect in E1 as [->|(h & rest & _ & Heff)]; [now apply Hinv |].
    destruct Heff as [->|path _ ->|package_name info Hm].
    + now apply Hinv.
    + destruct (local_branch_outputs (set_worklist rest st) path) as (_ & _ & _ & E & _).
      rewrite E in Hp. now apply Hinv.
    + apply merges_outputs in Hm as (_ & _ & _ & E4 & _ & Hig).
      rewrite E4 in Hp. apply elem_of_union in Hp as [Hp|Hp]; [| now apply Hinv].
      apply elem_of_singleton in Hp. now subst.
Qed.

Lemma step_resolved_grows st env st' env' :
  step w pm main_source_file st env = (Ok st', env') ->
  processed_local_headers st ⊆ processed_local_headers st'.
Proof.
  intros H. apply step_effect in H as [->|(h & rest & _ & Heff)]; [done |].
  destruct Heff as [->|path _ ->|package_name info Hm].
  - done.
  - destruct (local_branch_outputs (set_worklist rest st) path) as (_ & _ & _ & _ & E).
    rewrite E. cbn. set_solver.
  - apply merges_outputs in Hm as (_ & _ & _ & _ & E & _). now rewrite E.
Qed.

Lemma steps_resolved_grow n st env st' env' :
  steps w pm main_source_file n st env = (Ok st', env') ->
  processed_local_headers st ⊆ processed_local_headers st'.
Proof.
  revert st env; induction n as [|n IH]; intros st env; cbn.
  - intros [= <- _]. done.
  - unfold mbind, M_bind.
    destruct (step w pm main_source_file st env) as [[st1|e] env1] eqn:E1; [| discriminate].
    intros H. apply step_resolved_grows in E1. apply IH in H. set_solver.
Qed.

Lemma merged_during_later n st env st1 env1 package_name info :
  step w pm main_source_file st env = (Ok st1, env1) ->
  merged_during w pm main_source_file n st1 env1 package_name info ->
  merged_during w pm main_source_file (S n) st env package_name info.
Proof.
  intros E (k & sk & ek & h & rest & s2 & e2 & Hk & Hsteps & Hpop & Hstep & Hm).
  exists (S k), sk, ek, h, rest, s2, e2. repeat split; try assumption; [lia |].
  cbn. unfold mbind, M_bind. now rewrite E.
Qed.

Lemma merged_during_first n st env h rest st1 env1 package_name info :
  headers_to_process st = h :: rest ->
  step w pm main_source_file st env = (Ok st1, env1) ->
  merges w pm main_source_file (set_worklist rest st) h env package_name info st1 env1 ->
  merged_during w pm main_source_file (S n) st env package_name info.
Proof.
  intros Hpop E Hm. exists 0%nat, st, env, h, rest, st1, env1.
  repeat split; try assumption; lia.
Qed.

(** Where the outputs of a run come from: a library was there at the
    start or is in the information merged by an iteration; an include path
    was there at the start, or is the directory of a resolved local header,
    or is in the information merged by an iteration. *)
Lemma steps_provenance n : forall st env st' env',
  steps w pm main_source_file n st env = (Ok st', env') ->
  (forall lib, lib ∈ all_libs st' ->
     lib ∈ all_libs st
     \/ exists package_name info,
          merged_during w pm main_source_file n st env package_name info
          /\ lib ∈ info.2)
  /\ (forall dir, dir ∈ all_include_paths st' ->
        dir ∈ all_include_paths st
        \/ (exists path, path ∈ processed_local_headers st'
                         /\ dir = posixpath.dirname path)
        \/ exists package_name info,
             merged_during w pm main_source_file n st env package_name info
             /\ dir ∈ info.1).
Proof.
  induction n as [|n IH]; intros st env st' env'; cbn.
  - intros [= <- _]. split; intros; now left.
  - unfold mbind, M_bind.
    destruct (step w pm main_source_file st env) as [[st1|e] env1] eqn:E1; [| discriminate].
    intros H. destruct (IH _ _ _ _ H) as [IHlib IHdir].
    pose proof (steps_resolved_grow _ _ _ _ _ H) as Hres.
    pose proof E1 as Heff.
    apply step_effect in Heff as [->|(h & rest & Hpop & Heff)].
    { split.
      - intros lib Hl. destruct (IHlib lib Hl) as [?|(p & info & Hm & ?)]; [now left |].
        right. exists p, info. split; [| assumption]. eapply merged_during_later; eauto.
      - intros dir Hd.
        destruct (IHdir dir Hd) as [?|[?|(p & info & Hm & ?)]]; [now left | now right; left |].
        right; right. exists p, info. split; [| assumption].
        eapply merged_during_later; eauto. }
    split.
    + intros lib Hl. destruct (IHlib lib Hl) as [Hl1|(p & info & Hm & ?)].
      2: { right. exists p, info. split; [| assumption]. eapply merged_during_later; eauto. }
      destruct Heff as [->|path _ ->|package_name info Hm].
      * now left.
      * destruct (local_branch_outputs (set_worklist rest st) path) as (_ & _ & E3 & _).
        rewrite E3 in Hl1. now left.
      * pose proof (merges_outputs _ _ _ _ _ _ _ Hm) as (_ & _ & E3 & _).
        rewrite E3 in Hl1. apply elem_of_union in Hl1 as [Hl1|Hl1]; [now left |].
        right. exists package_name, info. split; [| assumption].
        eapply merged_during_first; eauto.
    + intros dir Hd. destruct (IHdir dir Hd) as [Hd1|[?|(p & info & Hm & ?)]].
      2: { now right; left. }
      2: { right; right. exists p, info. split; [| assumption].
           eapply merged_during_later; eauto. }
      destruct Heff as [->|path _ ->|package_name info Hm].
      * now left.
      * destruct (local_branch_outputs (set_worklist rest st) path)
          as (_ & E2 & _ & _ & E5).
        rewrite E2 in Hd1. apply elem_of_union in Hd1 as [Hd1|Hd1]; [| now left].
        apply elem_of_singleton in Hd1. right; left.
        exists (FS.abspath w path). split; [| exact Hd1].
        apply Hres. rewrite E5. set_solver.
      * pose proof (merges_outputs _ _ _ _ _ _ _ Hm) as (_ & E2 & _).
        rewrite E2 in Hd1. apply elem_of_union in Hd1 as [Hd1|Hd1]; [now left |].
        right; right. exists package_name, info. split; [| assumption].
        eapply merged_during_first; eauto.
Qed.

End Iteration.

(** ** Toolchain packages *)

(** C7, as amended.  When the package of the selected candidate, be it
    the only candidate or the best-scoring of several, starts with a prefix
    of [IGNORE_PACKAGES], the iteration leaves every output set as it was and
    does not look the package up.  An iteration that merges package
    information merges what [find_package_info] returned for the package of
    the candidate it selected, and that package is not an ignored one.  Over
    a run, every library of the output was there at the start or was merged
    so, and every include path was there at the start, is the directory of a
    resolved local header, or was merged so; no ignored package is ever among
    the processed packages. *)
Theorem ignored_package_is_never_merged
        w pm main_source_file st header env first others env1 :
  find_header_candidates header pm env = (Ok (first :: others), env1) ->
  ignored_package (package (best_candidate w main_source_file first others)) = true ->
  system_branch w pm main_source_file st header env = (Ok st, env1)
  /\ (forall st0 h env0 st' env',
         process_header w pm main_source_file st0 h env0 = (Ok st', env') ->
         effect w pm main_source_file st0 h env0 st' env')
  /\ (forall n st0 env0 st' env',
         steps w pm main_source_file n st0 env0 = (Ok st', env') ->
         (forall lib, lib ∈ all_libs st' ->
            lib ∈ all_libs st0
            \/ exists package_name info,
                 merged_during w pm main_source_file n st0 env0 package_name info
                 /\ ignored_package package_name = false
                 /\ lib ∈ info.2)
         /\ (forall dir, dir ∈ all_include_paths st' ->
               dir ∈ all_include_paths st0
               \/ (exists path, path ∈ processed_local_headers st'
                                /\ dir = posixpath.dirname path)
               \/ exists package_name info,
                    merged_during w pm main_source_file n st0 env0 package_name info
                    /\ ignored_package package_name = false
                    /\ dir ∈ info.1))
  /\ (forall n env0 st' env',
         steps w pm main_source_file n (initial w main_source_file) env0 = (Ok st', env') ->
         forall p, p ∈ processed_system_packages st' -> ignored_package p = false).
Proof.
  intros Hcand Hig. split; [| split; [| split]].
  - unfold system_branch, mbind, M_bind. rewrite Hcand, Hig.
    now rewrite orb_true_r.
  - apply process_header_effect.
  - intros n st0 env0 st' env' H.
    destruct (steps_provenance w pm main_source_file n _ _ _ _ H) as [Hlib Hdir].
    assert (Hnot : forall p info,
               merged_during w pm main_source_file n st0 env0 p info ->
               ignored_package p = false).
    { intros p info (k & sk & ek & h & rest & s2 & e2 & _ & _ & _ & _ & Hm).
      now apply merges_outputs in Hm. }
    split.
    + intros lib Hl. destruct (Hlib lib Hl) as [?|(p & info & Hm & ?)]; [now left |].
      right. exists p, info. eauto.
    + intros dir Hd.
      destruct (Hdir dir Hd) as [?|[?|(p & info & Hm & ?)]]; [now left | now right; left |].
      right; right. exists p, info. eauto.
  - intros n env0 st' env' H. eapply steps_keep_ignored_out; [| exact H].
    cbn. set_solver.
Qed.

(** ** Sources of local headers *)

(** C9, as amended.  When the reference popped is a quoted include that
    [find_local_file] finds in the project tree and a [.cpp] file with the
    same base name exists next to the header, the iteration returns with
    that file in the source set, and with no other new source; the file
    stays there in every later state of the run.  The extension is [.cpp]:
    no other one is looked for. *)
Theorem local_header_source_is_added
        w pm main_source_file st header_name rest env path :
  headers_to_process st = (header_name, QUOTE) :: rest ->
  header_name ∉ CPP_STANDARD_HEADERS ->
  header_name ∉ processed_local_headers st ->
  find_local_file w header_name (project_root main_source_file) = Some path ->
  Py.is_empty path = false ->
  FS.exists_ w ((posixpath.splitext (FS.abspath w path)).1 +:+ ".cpp") = true ->
  exists st' env',
    step w pm main_source_file st env = (Ok st', env')
    /\ (posixpath.splitext (FS.abspath w path)).1 +:+ ".cpp" ∈ all_source_files st'
    /\ posixpath.dirname (FS.abspath w path) ∈ all_include_paths st'
    /\ (forall n st'' env'',
           steps w pm main_source_file n st' env' = (Ok st'', env'') ->
           (posixpath.splitext (FS.abspath w path)).1 +:+ ".cpp" ∈ all_source_files st'')
    /\ all_source_files st'
       = {[ (posixpath.splitext (FS.abspath w path)).1 +:+ ".cpp" ]} ∪ all_source_files st.
Proof.
  intros Hpop Hstd Hnew Hfind Hpath Hcpp.
  exists (local_branch w (set_worklist rest st) path),
         {| cache := cache env; trace := trace env ++ [LocalLookup header_name] |}.
  destruct (local_branch_outputs w (set_worklist rest st) path) as (E1 & E2 & _).
  cbn zeta in E1, E2. rewrite Hcpp in E1.
  split; [| split; [| split; [| split]]].
  5: { exact E1. }
  - unfold step. rewrite Hpop. unfold process_header, is_standard_header.
    rewrite bool_decide_false by exact Hstd.
    rewrite bool_decide_false by exact Hnew. cbn [orb].
    unfold QUOTE at 1. rewrite String.eqb_refl.
    unfold mbind, M_bind. cbn. rewrite Hfind, Hpath. reflexivity.
  - rewrite E1. set_solver.
  - rewrite E2. set_solver.
  - intros n st'' env'' H. apply steps_grow in H as (H & _).
    apply H. rewrite E1. set_solver.
Qed.

(** ** Failing package tools *)

Lemma run_command_failed w command env :
  absorbed w command = true ->
  run_command w command env
  = (Ok EmptyString, {| cache := cache env; trace := trace env ++ [Exec command] |}).
Proof.
  unfold absorbed. intros Hf. apply andb_prop in Hf as [Hnul Hf].
  apply negb_true_iff in Hnul.
  unfold run_command, mbind, M_bind, tell. rewrite Hnul.
  destruct (subprocess_run w command) as [returncode stdout| | |]; cbn in Hf |- *.
  - destruct (returncode =? 0)%Z; [discriminate Hf | reflexivity].
  - discriminate Hf.
  - reflexivity.
  - discriminate Hf.
Qed.






Section RaisesAfterQuery.
Variable w : World.
Variable d : distro.
Variable main_source_file : string.















End RaisesAfterQuery.


(** ** Cached lookups *)

Lemma cached_candidates_are_reused header pm env c cs :
  Cache.get (cache env) system_headers header = Some (c :: cs) ->
  find_header_candidates header pm env = (Ok (c :: cs), env).
Proof.
  intros Hget. unfold find_header_candidates, mbind, M_bind, cache_get.
  now rewrite Hget.
Qed.

(** The package path serves any cached entry, the empty one included. *)
Lemma cached_package_info_is_reused package_name pm env include_paths libs :
  Cache.get (cache env) packages package_name = Some (include_paths, libs) ->
  find_package_info package_name pm env
  = (Ok (list_to_set include_paths, list_to_set libs), env).
Proof.
  intros Hget. unfold find_package_info, mbind, M_bind, cache_get.
  now rewrite Hget.
Qed.

(** C5, at the failing input.  On a machine whose [dpkg -S] succeeds
    and prints nothing, the first lookup of [zlib.h] stores the empty
    candidate list in the cache; the second lookup, with that entry present,
    queries the backend again instead of reading it. *)
Theorem empty_cached_candidates_are_queried_again :
  let w := app_project silent_tools in
  let first_lookup := find_header_candidates "zlib.h" (manager_of debian w) (fresh_env debian) in
  let second_lookup := find_header_candidates "zlib.h" (manager_of debian w) first_lookup.2 in
  first_lookup.1 = Ok []
  /\ Cache.get (cache first_lookup.2) system_headers "zlib.h" = Some []
  /\ trace first_lookup.2 = [CandidatesQuery "zlib.h"; Exec ["dpkg"; "-S"; "*/zlib.h"]]
  /\ second_lookup.1 = Ok []
  /\ trace second_lookup.2
     = [CandidatesQuery "zlib.h"; Exec ["dpkg"; "-S"; "*/zlib.h"];
        CandidatesQuery "zlib.h"; Exec ["dpkg"; "-S"; "*/zlib.h"]].
Proof. vm_compute. repeat split; reflexivity. Qed.

(** ** A mutual include cycle *)

Lemma run_loop_unfold w pm main_source_file fuel st env :
  run_loop w pm main_source_file (S fuel) st env
  = match headers_to_process st with
    | [] => (Ok (Some st), env)
    | h :: rest =>
        match process_header w pm main_source_file (set_worklist rest st) h env with
        | (Ok st', env') => run_loop w pm main_source_file fuel st' env'
        | (Raise e, env') => (Raise e, env')
        end
    end.
Proof. cbn. destruct (headers_to_process st); reflexivity. Qed.

Lemma cycle_turn next other env :
  (next = "b.h" /\ other = "c.h") \/ (next = "c.h" /\ other = "b.h") ->
  process_header cycle_project (manager_of debian cycle_project) cycle_main
                 (set_worklist [] (cycle_state next)) (next, QUOTE) env
  = (Ok (cycle_state other),
     {| cache := cache env; trace := trace env ++ [LocalLookup next] |}).
Proof.
  destruct env as [c tr].
  intros [[-> ->]|[-> ->]]; vm_compute; reflexivity.
Qed.

Lemma cycle_state_never_drains fuel :
  forall next other env,
    (next = "b.h" /\ other = "c.h") \/ (next = "c.h" /\ other = "b.h") ->
    (run_loop cycle_project (manager_of debian cycle_project) cycle_main
              fuel (cycle_state next) env).1 = Ok None.
Proof.
  induction fuel as [|fuel IH]; intros next other env Hn; [reflexivity |].
  rewrite run_loop_unfold.
  change (headers_to_process (cycle_state next))
    with (@cons Header (next, QUOTE) (@nil Header)).
  cbv beta iota. rewrite (cycle_turn next other env Hn).
  apply (IH other next). tauto.
Qed.

(** C1, at the failing input.  On the project whose [b.h] includes
    [c.h] and whose [c.h] includes [b.h], the loop is still running after
    any number of iterations, whatever the cache holds: no bound on the
    iterations lets [resolve_project] return. *)
Theorem mutual_include_cycle_never_terminates fuel env :
  (resolve_project cycle_project (manager_of debian cycle_project) cycle_main fuel env).1
  = Ok None.
Proof.
  unfold resolve_project.
  assert (Hinit : initial cycle_project cycle_main
                  = {| all_source_files := {[ "/proj/main.cpp" ]};
                       all_include_paths := ∅; all_libs := ∅;
                       processed_system_packages := ∅;
                       processed_local_headers := ∅;
                       headers_to_process := [("b.h", QUOTE)] |})
    by (vm_compute; reflexivity).
  rewrite Hinit. destruct env as [c tr].
  destruct fuel as [|fuel]; [reflexivity |].
  rewrite run_loop_unfold. cbn [headers_to_process].
  match goal with |- context [process_header ?a ?b ?d ?e ?f ?g] =>
    assert (E1 : process_header a b d e f g
                 = (Ok {| all_source_files := {[ "/proj/main.cpp" ]};
                          all_include_paths := {[ "/proj" ]}; all_libs := ∅;
                          processed_system_packages := ∅;
                          processed_local_headers := {[ "/proj/b.h" ]};
                          headers_to_process := [("c.h", QUOTE)] |},
                    {| cache := c; trace := tr ++ [LocalLookup "b.h"] |}))
      by (vm_compute; reflexivity);
    rewrite E1; clear E1 end.
  destruct fuel as [|fuel]; [reflexivity |].
  rewrite run_loop_unfold. cbn [headers_to_process].
  match goal with |- context [process_header ?a ?b ?d ?e ?f ?g] =>
    assert (E2 : process_header a b d e f g
                 = (Ok (cycle_state "b.h"),
                    {| cache := c;
                       trace := (tr ++ [LocalLookup "b.h"]) ++ [LocalLookup "c.h"] |}))
      by (vm_compute; reflexivity);
    rewrite E2; clear E2 end.
  apply (cycle_state_never_drains fuel "b.h" "c.h"). tauto.
Qed.

(** C2, at the failing input.  On the same project, after two
    iterations [b.h] has been resolved (its path is in the resolved set) and
    the reference to [b.h] is in the worklist again; the third iteration
    does not discard it but looks it up and processes it a second time, and
    puts [c.h], resolved as well, back in the worklist. *)
Theorem resolved_header_is_processed_again :
  let pm := manager_of debian cycle_project in
  let after n := steps cycle_project pm cycle_main n
                       (initial cycle_project cycle_main) (fresh_env debian) in
  (exists st2 env2,
      after 2 = (Ok st2, env2)
      /\ "/proj/b.h" ∈ processed_local_headers st2
      /\ "/proj/c.h" ∈ processed_local_headers st2
      /\ headers_to_process st2 = [("b.h", QUOTE)]
      /\ trace env2 = [LocalLookup "b.h"; LocalLookup "c.h"])
  /\ (exists st3 env3,
         after 3 = (Ok st3, env3)
         /\ headers_to_process st3 = [("c.h", QUOTE)]
         /\ trace env3 = [LocalLookup "b.h"; LocalLookup "c.h"; LocalLookup "b.h"]).
Proof.
  cbn zeta. split.
  - eexists _, _. split; [vm_compute; reflexivity |].
    repeat split; try reflexivity; set_solver.
  - eexists _, _. split; [vm_compute; reflexivity |].
    repeat split; reflexivity.
Qed.

(** ** The statements at concrete inputs *)

Lemma mismatched_include_is_extracted_witness :
  exists m,
    Re.match_ INCLUDE_REGEX
      (include_line "  " EmptyString " " Chars.dquote "b.h" ">" (String Chars.lf EmptyString))
    = Some m
    /\ Re.groups m = [QUOTE; "b.h"].
Proof.
  apply (mismatched_include_is_extracted
           "  " EmptyString " " Chars.dquote "b.h" ">" (String Chars.lf EmptyString));
    [reflexivity | reflexivity | reflexivity | reflexivity | right; split; reflexivity].
Defined.

Lemma standard_header_never_looked_up_witness :
  step cycle_project (manager_of debian cycle_project) cycle_main
       (set_worklist [("vector", ANGLE); ("b.h", QUOTE)] (initial cycle_project cycle_main))
       (fresh_env debian)
  = (Ok (set_worklist [("b.h", QUOTE)] (initial cycle_project cycle_main)), fresh_env debian).
Proof.
  refine (proj1 (standard_header_never_looked_up
                   cycle_project debian cycle_main
                   (set_worklist [("vector", ANGLE); ("b.h", QUOTE)]
                                 (initial cycle_project cycle_main))
                   "vector" ANGLE [("b.h", QUOTE)] (fresh_env debian) _ _)).
  - refine (bool_decide_unpack _ _). vm_compute. exact I.
  - reflexivity.
Defined.

Lemma best_candidate_first_of_highest_score_witness :
  best_candidate scoring_project "/src/app.cpp" candidate_a [candidate_b] = candidate_b.
Proof.
  refine (proj2 (best_candidate_first_of_highest_score
                   scoring_project "/src/app.cpp" candidate_a [candidate_b] _)
                [candidate_a] candidate_b [] _ _).
  - cbn. lia.
  - reflexivity.
  - constructor; [| constructor]. vm_compute. lia.
Defined.

Lemma cache_round_trip_by_mode_witness :
  Cache.get (Cache.set (Cache.init empty_db "debian" true) system_headers "zlib.h" [candidate_a])
            system_headers "zlib.h"
  = Some [candidate_a].
Proof.
  refine (proj1 (proj1 (cache_round_trip_by_mode
                          (Cache.init empty_db "debian" true) "zlib.h" [candidate_a] ∅ ∅) _)).
  reflexivity.
Defined.

(** C6 as stated fails: the package information comes back as two
    lists, which is not equal to the two sets that were stored. *)
Lemma cache_round_trip_returns_lists_for_sets :
  let c := Cache.init empty_db "debian" true in
  let info : Cache.stored packages := ({[ "/usr/include" ]}, {[ "z" ]}) in
  exists got,
    Cache.get (Cache.set c packages "zlib1g-dev" info) packages "zlib1g-dev" = Some got
    /\ returned packages got = PairOfLists ["/usr/include"] ["z"]
    /\ returned packages got <> given packages info.
Proof.
  cbn zeta. eexists. split; [vm_compute; reflexivity |].
  split; [reflexivity | discriminate].
Qed.

Lemma ignored_package_is_never_merged_witness :
  let w := app_project libc_tools in
  system_branch w (manager_of debian w) app_main (initial w app_main) "stdio_ext.h"
                (fresh_env debian)
  = (Ok (initial w app_main),
     (find_header_candidates "stdio_ext.h" (manager_of debian w) (fresh_env debian)).2).
Proof.
  cbn zeta.
  refine (proj1 (ignored_package_is_never_merged
                   (app_project libc_tools) (manager_of debian (app_project libc_tools))
                   app_main (initial (app_project libc_tools) app_main) "stdio_ext.h"
                   (fresh_env debian)
                   {| package := "libc6-dev"; full_path := "/usr/include/stdio_ext.h" |} []
                   _ _ _)).
  - vm_compute. reflexivity.
  - reflexivity.
Defined.


Lemma local_header_source_is_added_witness :
  let w := app_project no_tools in
  exists st' env',
    step w (manager_of debian w) app_main (initial w app_main) (fresh_env debian) = (Ok st', env')
    /\ "/src/lib/util.cpp" ∈ all_source_files st'
    /\ "/src/lib" ∈ all_include_paths st'
    /\ (forall n st'' env'',
           steps w (manager_of debian w) app_main n st' env' = (Ok st'', env'') ->
           "/src/lib/util.cpp" ∈ all_source_files st'')
    /\ all_source_files st' = {[ "/src/lib/util.cpp" ]} ∪ all_source_files (initial w app_main).
Proof.
  cbn zeta.
  refine (local_header_source_is_added
            (app_project no_tools) (manager_of debian (app_project no_tools)) app_main
            (initial (app_project no_tools) app_main) "util.h" [("zlib.h", ANGLE)]
            (fresh_env debian) "/src/lib/util.h" _ _ _ _ _ _).
  - vm_compute. reflexivity.
  - refine (bool_decide_eq_false_1 _ _). vm_compute. reflexivity.
  - refine (bool_decide_eq_false_1 _ _). vm_compute. reflexivity.
  - vm_compute. reflexivity.
  - reflexivity.
  - vm_compute. reflexivity.
Defined.

(** C7 as stated fails: [/usr/include] is an include path of the
    ignored package [libc6-dev], and the run adds it to the output, as the
    include path of [zlib1g-dev]. *)
Lemma include_path_of_ignored_package_is_added :
  let w := app_project shared_tools in
  ignored_package "libc6-dev" = true
  /\ (exists info env',
         pm_find_package_info (manager_of debian w) "libc6-dev" (fresh_env debian)
         = (Ok info, env')
         /\ "/usr/include" ∈ info.1)
  /\ exists st' env',
       resolve_project w (manager_of debian w) app_main 2 (fresh_env debian)
       = (Ok (Some st'), env')
       /\ "/usr/include" ∈ all_include_paths st'.
Proof.
  cbn zeta. split; [reflexivity |]. split.
  - eexists _, _. split; [vm_compute; reflexivity |].
    refine (bool_decide_unpack _ _). vm_compute. exact I.
  - eexists _, _. split; [vm_compute; reflexivity |].
    refine (bool_decide_unpack _ _). vm_compute. exact I.
Qed.


(** C9 as stated fails: [util.h] is found and recorded, [util.cc],
    [util.cxx] and [util.c] exist next to it, and the entry file remains the
    only source. *)
Lemma sibling_with_another_extension_is_not_added :
  find_local_file cc_project "util.h" (project_root app_main) = Some "/src/lib/util.h"
  /\ FS.exists_ cc_project "/src/lib/util.cc" = true
  /\ FS.exists_ cc_project "/src/lib/util.cxx" = true
  /\ FS.exists_ cc_project "/src/lib/util.c" = true
  /\ exists st' env',
       resolve_project cc_project (manager_of debian cc_project) app_main 1 (fresh_env debian)
       = (Ok (Some st'), env')
       /\ processed_local_headers st' = {[ "/src/lib/util.h" ]}
       /\ all_source_files st' = {[ "/src/app.cpp" ]}.
Proof.
  split; [vm_compute; reflexivity |]. split; [vm_compute; reflexivity |].
  split; [vm_compute; reflexivity |]. split; [vm_compute; reflexivity |].
  eexists _, _. split; [vm_compute; reflexivity |].
  split; vm_compute; reflexivity.
Qed.

(** * Further properties of the code *)

(** ** The language standard *)

(** X1.  [get_max_supported_standard] gives a flag exactly for the
    versions from 4 on, the flag is one of the four known standards, and a
    newer compiler never gets an older standard than an older compiler. *)
Theorem max_standard_thresholds (v : Z) :
  (get_max_supported_standard (Some v) = None <-> (v < 4)%Z)
  /\ ((4 <= v)%Z ->
      standard_year (get_max_supported_standard (Some v)) ∈ [11; 14; 17; 20]%nat)
  /\ (forall v' : Z,
         (v <= v')%Z ->
         (standard_year (get_max_supported_standard (Some v))
          <= standard_year (get_max_supported_standard (Some v')))%nat).
Proof.
  assert (Hcases : forall u : Z,
             ((u < 4)%Z /\ get_max_supported_standard (Some u) = None)
             \/ ((4 <= u < 5)%Z /\ get_max_supported_standard (Some u) = Some "-std=c++11")
             \/ ((5 <= u < 7)%Z /\ get_max_supported_standard (Some u) = Some "-std=c++14")
             \/ ((7 <= u < 11)%Z /\ get_max_supported_standard (Some u) = Some "-std=c++17")
             \/ ((11 <= u)%Z /\ get_max_supported_standard (Some u) = Some "-std=c++20")).
  { intros u. unfold get_max_supported_standard.
    destruct (Z.eqb_spec u 0); [left; split; [lia | reflexivity] |].
    destruct (Z.leb_spec 11 u); [do 4 right; split; [lia | reflexivity] |].
    destruct (Z.leb_spec 7 u); [do 3 right; left; split; [lia | reflexivity] |].
    destruct (Z.leb_spec 5 u); [do 2 right; left; split; [lia | reflexivity] |].
    destruct (Z.leb_spec 4 u); [right; left; split; [lia | reflexivity] |].
    left; split; [lia | reflexivity]. }
  split; [| split].
  - destruct (Hcases v) as [[H ->]|[[H ->]|[[H ->]|[[H ->]|[H ->]]]]];
      split; intros; try discriminate; try lia; reflexivity.
  - intros Hv.
    destruct (Hcases v) as [[H ->]|[[H ->]|[[H ->]|[[H ->]|[H ->]]]]];
      try lia; cbn; set_solver.
  - intros v' Hle.
    destruct (Hcases v) as [[H ->]|[[H ->]|[[H ->]|[[H ->]|[H ->]]]]];
      destruct (Hcases v') as [[H' ->]|[[H' ->]|[[H' ->]|[[H' ->]|[H' ->]]]]];
      try lia; cbn; lia.
Qed.

(** X2.  When the compiler is missing, or [compiler --version] exits
    with a non-zero status after output that is UTF-8 (and the name of the
    compiler holds no NUL, as the two names [main] accepts), no version is
    found and no standard flag is chosen; nothing is raised. *)
Theorem missing_compiler_gives_no_standard w compiler env :
  absorbed w [compiler; "--version"] = true ->
  exists env',
    get_compiler_version w compiler env = (Ok None, env')
    /\ detect_standard w compiler env = (Ok None, env').
Proof.
  intros Hf. eexists. unfold detect_standard, get_compiler_version, mbind, M_bind.
  rewrite run_command_failed by exact Hf. cbn. split; reflexivity.
Qed.

Lemma missing_compiler_gives_no_standard_witness :
  exists env',
    get_compiler_version cycle_project "g++" (fresh_env debian) = (Ok None, env')
    /\ detect_standard cycle_project "g++" (fresh_env debian) = (Ok None, env').
Proof.
  apply (missing_compiler_gives_no_standard cycle_project "g++" (fresh_env debian)).
  reflexivity.
Defined.

(** ** More on the lookup cache *)

(** X3.  A [set] for one distribution, table and key changes what [get]
    returns for no other distribution, table or key, whichever process reads
    the store: entries of one distribution are never returned under
    another. *)
Theorem cache_entries_are_isolated (c : Cache.t) (tb : table) (key : string)
        (value : Cache.stored tb) (d' : string) (tb' : table) (key' : string) :
  (d', key') <> (Cache.distro_id c, key) \/ tb' <> tb ->
  Cache.get (reopened (Cache.set c tb key value) d') tb' key'
  = Cache.get (reopened c d') tb' key'.
Proof.
  intros Hne. unfold reopened, Cache.get, Cache.init. cbn.
  destruct tb, tb'; cbn in value |- *;
    try destruct value as [include_paths libs];
    destruct (Cache.enabled c); cbn; try reflexivity;
    apply lookup_insert_ne; destruct Hne as [Hne|Hne]; congruence.
Qed.

Lemma cache_entries_are_isolated_witness :
  Cache.get (reopened (Cache.set (Cache.init empty_db "debian" true)
                                 system_headers "zlib.h" [candidate_a]) "arch")
            system_headers "zlib.h"
  = Cache.get (reopened (Cache.init empty_db "debian" true) "arch") system_headers "zlib.h".
Proof.
  apply (cache_entries_are_isolated (Cache.init empty_db "debian" true)
           system_headers "zlib.h" [candidate_a] "arch" system_headers "zlib.h").
  left. discriminate.
Defined.

(** X4.  A second [set] for the same key replaces the entry: the store
    is the one the second [set] alone would have produced, and [get] returns
    the second value. *)
Theorem cache_set_overwrites (c : Cache.t) (tb : table) (key : string)
        (value1 value2 : Cache.stored tb) :
  Cache.set (Cache.set c tb key value1) tb key value2 = Cache.set c tb key value2.
Proof.
  unfold Cache.set. destruct tb; cbn.
  - destruct (Cache.enabled c) eqn:E; cbn; rewrite ?E; cbn; [| reflexivity].
    now rewrite insert_insert_eq.
  - destruct value1 as [i1 l1], value2 as [i2 l2].
    destruct (Cache.enabled c) eqn:E; cbn; rewrite ?E; cbn; [| reflexivity].
    now rewrite insert_insert_eq.
Qed.

(** ** The cache along a run *)

Lemma keeps_cache_ret {A : Type} (a : A) : keeps_cache (mret a).
Proof. intros env. reflexivity. Qed.

Lemma keeps_cache_raise {A : Type} e : keeps_cache (raise e : M A).
Proof. intros env. reflexivity. Qed.

Lemma keeps_cache_tell ev : keeps_cache (tell ev).
Proof. intros env. reflexivity. Qed.

Lemma keeps_cache_bind {A B : Type} (m : M A) (k : A -> M B) :
  keeps_cache m -> (forall a, keeps_cache (k a)) -> keeps_cache (m ≫= k).
Proof.
  intros Hm Hk env. unfold mbind, M_bind.
  specialize (Hm env). destruct (m env) as [[a|e] env1]; cbn in *.
  - now rewrite Hk.
  - exact Hm.
Qed.

#[local] Hint Resolve keeps_cache_ret keeps_cache_raise keeps_cache_tell : emits.

Ltac keeps_cache_cases :=
  repeat first
    [ solve [auto with emits]
    | apply keeps_cache_bind; [| intros ?]
    | match goal with
      | |- keeps_cache (if ?b then _ else _) => destruct b
      | |- keeps_cache (match ?x with _ => _ end) => destruct x
      end ].

Lemma keeps_cache_run_command w command : keeps_cache (run_command w command).
Proof. unfold run_command. keeps_cache_cases. Qed.

#[local] Hint Resolve keeps_cache_run_command : emits.

Lemma keeps_cache_manager d w :
  (forall header, keeps_cache (pm_find_header_candidates (manager_of d w) header))
  /\ (forall package_name, keeps_cache (pm_find_package_info (manager_of d w) package_name)).
Proof.
  destruct d; cbn; split; intros x.
  - unfold DebianManager.find_header_candidates. keeps_cache_cases.
  - unfold DebianManager.find_package_info. keeps_cache_cases.
  - unfold RedHatManager.find_header_candidates. keeps_cache_cases.
  - unfold RedHatManager.find_package_info. keeps_cache_cases.
  - unfold ArchManager.find_header_candidates. keeps_cache_cases.
  - unfold ArchManager.find_package_info. keeps_cache_cases.
Qed.

Lemma cache_extends_refl c : cache_extends c c.
Proof. unfold cache_extends. naive_solver. Qed.

Lemma cache_extends_trans c1 c2 c3 :
  cache_extends c1 c2 -> cache_extends c2 c3 -> cache_extends c1 c3.
Proof.
  intros (E1 & D1 & N1 & P1 & H1) (E2 & D2 & N2 & P2 & H2).
  unfold cache_extends. repeat split; try congruence; eauto.
  intros Hoff. rewrite N2 by congruence. now apply N1.
Qed.

Lemma cache_extends_set_headers c header candidates :
  (forall x xs, Cache.get c system_headers header <> Some (x :: xs)) ->
  cache_extends c (Cache.set c system_headers header candidates).
Proof.
  intros Hmiss. unfold cache_extends, Cache.set, Cache.get in *.
  destruct (Cache.enabled c) eqn:E; cbn; rewrite ?E; cbn;
    [| repeat split; auto; discriminate].
  repeat split; auto; [discriminate |].
  intros key x xs Hget.
  rewrite lookup_insert_ne; [exact Hget |].
  intros [= <-]. exact (Hmiss x xs Hget).
Qed.

Lemma cache_extends_set_packages c package_name info :
  Cache.get c packages package_name = None ->
  cache_extends c (Cache.set c packages package_name info).
Proof.
  intros Hmiss. destruct info as [include_paths libs].
  unfold cache_extends, Cache.set, Cache.get in *.
  destruct (Cache.enabled c) eqn:E; cbn in *; rewrite ?E; cbn;
    [| repeat split; auto; discriminate].
  repeat split; auto; [discriminate |].
  intros key info Hget.
  rewrite lookup_insert_ne; [exact Hget |].
  intros [= <-]. congruence.
Qed.

Section CacheAlongRun.
Variable w : World.
Variable d : distro.
Variable main_source_file : string.

Lemma find_header_candidates_extends header env :
  cache_extends (cache env) (cache (find_header_candidates header (manager_of d w) env).2).
Proof.
  unfold find_header_candidates, mbind, M_bind, cache_get, tell, cache_set.
  destruct (Cache.get (cache env) system_headers header) as [[|x xs]|] eqn:Hget; cbn.
  2: apply cache_extends_refl.
  all: match goal with |- context [pm_find_header_candidates ?pm ?h ?e] =>
         pose proof (proj1 (keeps_cache_manager d w) h e) as Hk;
         destruct (pm_find_header_candidates pm h e) as [[cands|ex] env1] end.
  all: cbn in Hk |- *; rewrite Hk; try apply cache_extends_refl.
  all: apply cache_extends_set_headers; intros x xs; congruence.
Qed.

Lemma find_package_info_extends package_name env :
  cache_extends (cache env) (cache (find_package_info package_name (manager_of d w) env).2).
Proof.
  unfold find_package_info, mbind, M_bind, cache_get, tell, cache_set.
  destruct (Cache.get (cache env) packages package_name) as [info|] eqn:Hget; cbn.
  1: apply cache_extends_refl.
  match goal with |- context [pm_find_package_info ?pm ?h ?e] =>
    pose proof (proj2 (keeps_cache_manager d w) h e) as Hk;
    destruct (pm_find_package_info pm h e) as [[info|ex] env1] end.
  all: cbn in Hk |- *; rewrite Hk; try apply cache_extends_refl.
  now apply cache_extends_set_packages.
Qed.

Lemma system_branch_extends st header env :
  cache_extends (cache env)
    (cache (system_branch w (manager_of d w) main_source_file st header env).2).
Proof.
  unfold system_branch, mbind, M_bind.
  pose proof (find_header_candidates_extends header env) as H1.
  destruct (find_header_candidates header (manager_of d w) env)
    as [[[|first others]|e] env1]; cbn in H1 |- *; try exact H1.
  destruct (_ || _); [exact H1 |].
  pose proof (find_package_info_extends
                (package (best_candidate w main_source_file first others)) env1) as H2.
  destruct (find_package_info _ (manager_of d w) env1) as [[info|e] env2];
    cbn in H2 |- *; eapply cache_extends_trans; eauto.
Qed.

Lemma step_extends st env :
  cache_extends (cache env) (cache (step w (manager_of d w) main_source_file st env).2).
Proof.
  unfold step. destruct (headers_to_process st) as [|[header_name quote_type] rest];
    [apply cache_extends_refl |].
  unfold process_header. destruct (_ || _); [apply cache_extends_refl |].
  unfold mbind, M_bind. destruct (String.eqb quote_type QUOTE); cbn.
  - destruct (find_local_file _ _ _) as [path|]; [destruct (Py.is_empty path) |];
      try apply cache_extends_refl;
      apply (system_branch_extends _ _
               {| cache := cache env; trace := trace env ++ [LocalLookup header_name] |}).
  - apply system_branch_extends.
Qed.

Lemma steps_extend n st env :
  cache_extends (cache env) (cache (steps w (manager_of d w) main_source_file n st env).2).
Proof.
  revert st env; induction n as [|n IH]; intros st env; cbn; [apply cache_extends_refl |].
  unfold mbind, M_bind.
  pose proof (step_extends st env) as H1.
  destruct (step w (manager_of d w) main_source_file st env) as [[st1|e] env1];
    cbn in H1 |- *; [| exact H1].
  eapply cache_extends_trans; [exact H1 | apply IH].
Qed.

End CacheAlongRun.

(** X5.  Over any number of iterations, with any of the three backends
    and whether the run ends, goes on or raises, the cache keeps its mode
    and its distribution, a disabled cache is left exactly as it was, every
    package entry the cache had is still there unchanged, and so is every
    non-empty candidate list. *)
Theorem run_only_extends_the_cache w d main_source_file n st env :
  let c := cache env in
  let c' := cache (steps w (manager_of d w) main_source_file n st env).2 in
  Cache.enabled c' = Cache.enabled c
  /\ Cache.distro_id c' = Cache.distro_id c
  /\ (Cache.enabled c = false -> c' = c)
  /\ (forall key info, Cache.get c packages key = Some info ->
                       Cache.get c' packages key = Some info)
  /\ (forall key x xs, Cache.get c system_headers key = Some (x :: xs) ->
                       Cache.get c' system_headers key = Some (x :: xs)).
Proof. exact (steps_extend w d main_source_file n st env). Qed.

(** ** Memoised lookups *)

(** X6.  With an enabled cache, once a lookup of a header has returned a
    non-empty candidate list, the next lookup of that header returns the
    same list from the cache: the backend is not queried and nothing
    changes, neither the cache nor the trace. *)
Theorem found_candidates_are_memoised w d header env c cs env1 :
  Cache.enabled (cache env) = true ->
  find_header_candidates header (manager_of d w) env = (Ok (c :: cs), env1) ->
  find_header_candidates header (manager_of d w) env1 = (Ok (c :: cs), env1).
Proof.
  intros Hon Hfirst. apply cached_candidates_are_reused.
  revert Hfirst.
  unfold find_header_candidates, mbind, M_bind, cache_get, tell, cache_set.
  destruct (Cache.get (cache env) system_headers header) as [[|x xs]|] eqn:Hget; cbn.
  2: { intros [= <- <- <-]. exact Hget. }
  all: match goal with |- context [pm_find_header_candidates ?pm ?h ?e] =>
         pose proof (proj1 (keeps_cache_manager d w) h e) as Hk;
         destruct (pm_find_header_candidates pm h e) as [[cands|ex] env'] end;
    [| discriminate].
  all: cbn in Hk |- *; intros [= -> <-]; cbn; rewrite Hk.
  all: unfold Cache.get, Cache.set; rewrite !Hon; cbn; rewrite ?Hon; cbn.
  all: apply lookup_insert_eq.
Qed.

Lemma found_candidates_are_memoised_witness :
  let w := app_project libc_tools in
  let first_lookup := find_header_candidates "stdio_ext.h" (manager_of debian w)
                                             (fresh_env debian) in
  find_header_candidates "stdio_ext.h" (manager_of debian w) first_lookup.2
  = (Ok [{| package := "libc6-dev"; full_path := "/usr/include/stdio_ext.h" |}],
     first_lookup.2).
Proof.
  cbn zeta.
  refine (found_candidates_are_memoised
            (app_project libc_tools) debian "stdio_ext.h" (fresh_env debian)
            {| package := "libc6-dev"; full_path := "/usr/include/stdio_ext.h" |} []
            _ _ _).
  - reflexivity.
  - vm_compute. reflexivity.
Defined.

(** X7.  With an enabled cache, once the information of a package has
    been looked up, the next lookup returns the same two sets from the cache,
    also when they are empty: the backend is not queried and nothing
    changes. *)
Theorem package_info_is_memoised w d package_name env info env1 :
  Cache.enabled (cache env) = true ->
  find_package_info package_name (manager_of d w) env = (Ok info, env1) ->
  find_package_info package_name (manager_of d w) env1 = (Ok info, env1).
Proof.
  intros Hon. destruct info as [include_paths libs].
  unfold find_package_info at 1. unfold mbind, M_bind, cache_get, tell, cache_set.
  destruct (Cache.get (cache env) packages package_name) as [[cached1 cached2]|] eqn:Hget; cbn.
  - intros [= <- <- <-].
    now rewrite (cached_package_info_is_reused package_name _ env cached1 cached2 Hget).
  - match goal with |- context [pm_find_package_info ?pm ?h ?e] =>
      pose proof (proj2 (keeps_cache_manager d w) h e) as Hk;
      destruct (pm_find_package_info pm h e) as [[got|ex] env'] end;
      [| discriminate].
    cbn in Hk |- *. intros [= -> <-].
    rewrite (cached_package_info_is_reused package_name _ _ (elements include_paths)
               (elements libs)).
    + now rewrite !list_to_set_elements_L.
    + cbn. rewrite Hk. unfold Cache.get, Cache.set. rewrite !Hon. cbn. rewrite ?Hon. cbn.
      apply lookup_insert_eq.
Qed.

Lemma package_info_is_memoised_witness :
  let first_lookup := find_package_info "zlib1g-dev" (manager_of debian cycle_project)
                                        (fresh_env debian) in
  find_package_info "zlib1g-dev" (manager_of debian cycle_project) first_lookup.2
  = (Ok (∅, ∅), first_lookup.2).
Proof.
  cbn zeta.
  refine (package_info_is_memoised cycle_project debian "zlib1g-dev" (fresh_env debian)
            (∅, ∅) _ _ _).
  - reflexivity.
  - vm_compute. reflexivity.
Defined.

(** ** The worklist *)

Section Worklist.
Variable w : World.
Variable pm : PackageManager.
Variable main_source_file : string.

Lemma enqueue_worklist st h :
  headers_to_process (enqueue st h) = headers_to_process st
  \/ ((h ∉ headers_to_process st)
      /\ headers_to_process (enqueue st h) = headers_to_process st ++ [h]).
Proof.
  unfold enqueue. case_bool_decide as H1; cbn [andb]; [| now left].
  case_bool_decide as H2; [| now left]. right. now split.
Qed.

Lemma foldl_enqueue_worklist hs st :
  NoDup (headers_to_process st) ->
  NoDup (headers_to_process (foldl enqueue st hs))
  /\ (forall h, h ∈ headers_to_process (foldl enqueue st hs) ->
                h ∈ headers_to_process st \/ h ∈ hs)
  /\ (forall h, h ∈ headers_to_process st ->
                h ∈ headers_to_process (foldl enqueue st hs)).
Proof.
  revert st; induction hs as [|x hs IH]; intros st Hnd; cbn.
  - repeat split; auto.
  - destruct (enqueue_worklist st x) as [E|[Hx E]].
    + destruct (IH (enqueue st x)) as (N & I & K); [now rewrite E |].
      rewrite E in I, K. repeat split; [exact N | | exact K].
      intros h Hh. destruct (I h Hh); [now left | right; now constructor].
    + destruct (IH (enqueue st x)) as (N & I & K).
      { rewrite E. apply NoDup_app. repeat split; [exact Hnd | | apply NoDup_singleton].
        intros y Hy Hy'. apply list_elem_of_singleton in Hy'. now subst. }
      rewrite E in I, K. repeat split; [exact N | |].
      * intros h Hh. destruct (I h Hh) as [Hin|Hin]; [| right; now constructor].
        apply elem_of_app in Hin as [Hin|Hin]; [now left |].
        apply list_elem_of_singleton in Hin. subst. right. constructor.
      * intros h Hh. apply K. apply elem_of_app. now left.
Qed.

Lemma system_branch_keeps st header env st' env' :
  system_branch w pm main_source_file st header env = (Ok st', env') ->
  headers_to_process st' = headers_to_process st
  /\ processed_local_headers st' = processed_local_headers st
  /\ all_source_files st' = all_source_files st
  /\ all_include_paths st ⊆ all_include_paths st'.
Proof.
  unfold system_branch, mbind, M_bind.
  destruct (find_header_candidates header pm env) as [[[|first others]|e] env1];
    [| | discriminate].
  - intros [= <- _]. done.
  - destruct (_ || _); [intros [= <- _]; done |].
    destruct (find_package_info _ pm env1) as [[info|e] env2]; [| discriminate].
    intros [= <- _]. cbn. repeat split; set_solver.
Qed.

(** What an iteration does: it leaves the worklist, the resolved set and
    the sources alone, or it takes the local branch for a quoted include
    that is not a standard header and was found in the project tree. *)
Lemma process_header_worklist st h env st' env' :
  process_header w pm main_source_file st h env = (Ok st', env') ->
  (headers_to_process st' = headers_to_process st
   /\ processed_local_headers st' = processed_local_headers st
   /\ all_source_files st' = all_source_files st
   /\ all_include_paths st ⊆ all_include_paths st')
  \/ (exists path,
         h.2 = QUOTE
         /\ is_standard_header h.1 = false
         /\ find_local_file w h.1 (project_root main_source_file) = Some path
         /\ st' = local_branch w st path).
Proof.
  destruct h as [header_name quote_type]. unfold process_header.
  destruct (is_standard_header header_name) eqn:Hstd; cbn [orb];
    [intros [= <- _]; now left |].
  destruct (bool_decide _); [intros [= <- _]; now left |].
  unfold mbind, M_bind.
  destruct (String.eqb_spec quote_type QUOTE) as [->|Hq]; cbn.
  - destruct (find_local_file _ _ _) as [path|] eqn:Hfind; [destruct (Py.is_empty path) |].
    + intros H. apply system_branch_keeps in H. left. tauto.
    + intros [= <- _]. right. now exists path.
    + intros H. apply system_branch_keeps in H. left. tauto.
  - intros H. apply system_branch_keeps in H. left. tauto.
Qed.

Lemma local_branch_worklist st path :
  NoDup (headers_to_process st) ->
  NoDup (headers_to_process (local_branch w st path))
  /\ (forall h, h ∈ headers_to_process (local_branch w st path) ->
                h ∈ headers_to_process st
                \/ h ∈ extract_headers_from_file w (FS.abspath w path)).
Proof.
  intros Hnd. unfold local_branch.
  match goal with |- context [foldl enqueue ?s ?l] =>
    destruct (foldl_enqueue_worklist l s Hnd) as (N & I & _) end.
  split; [exact N |].
  intros h Hh. destruct (I h Hh) as [Hin|Hin]; [now left |].
  right. now apply elem_of_elements in Hin.
Qed.

Lemma step_worklist_nodup st env st' env' :
  NoDup (headers_to_process st) ->
  step w pm main_source_file st env = (Ok st', env') ->
  NoDup (headers_to_process st').
Proof.
  intros Hnd. unfold step.
  destruct (headers_to_process st) as [|h rest] eqn:E; [intros [= <- _]; now rewrite E |].
  apply NoDup_cons in Hnd as [_ Hnd].
  intros H. apply process_header_worklist in H as [[-> _]|(path & _ & _ & _ & ->)].
  - exact Hnd.
  - now apply local_branch_worklist.
Qed.

Lemma steps_worklist_nodup n st env st' env' :
  NoDup (headers_to_process st) ->
  steps w pm main_source_file n st env = (Ok st', env') ->
  NoDup (headers_to_process st').
Proof.
  revert st env; induction n as [|n IH]; intros st env Hnd; cbn.
  - intros [= <- _]. exact Hnd.
  - unfold mbind, M_bind.
    destruct (step w pm main_source_file st env) as [[st1|e] env1] eqn:E1; [| discriminate].
    apply IH. eapply step_worklist_nodup; eauto.
Qed.

End Worklist.

(** X8.  At every point of a run started by [main] the worklist holds no
    reference twice: the seed is a set, a pop removes, and a reference is
    enqueued only when it is not already queued. *)
Theorem worklist_never_holds_duplicates w pm main_source_file n env st' env' :
  steps w pm main_source_file n (initial w main_source_file) env = (Ok st', env') ->
  NoDup (headers_to_process st').
Proof.
  apply steps_worklist_nodup. cbn. apply NoDup_elements.
Qed.

Lemma worklist_never_holds_duplicates_witness :
  NoDup (headers_to_process
           (local_branch (app_project no_tools)
                         (set_worklist [("zlib.h", ANGLE)]
                                       (initial (app_project no_tools) app_main))
                         "/src/lib/util.h")).
Proof.
  refine (worklist_never_holds_duplicates
            (app_project no_tools) (manager_of debian (app_project no_tools)) app_main 1
            (fresh_env debian) _
            {| cache := cache (fresh_env debian); trace := [LocalLookup "util.h"] |} _).
  vm_compute. reflexivity.
Defined.

(** ** When the loop ends *)

Lemma loop_ends_within w pm main_source_file :
  forall l st env,
    headers_to_process st = l ->
    (forall name, (name, QUOTE) ∈ l ->
                  is_standard_header name = true
                  \/ find_local_file w name (project_root main_source_file) = None) ->
    exists r env',
      run_loop w pm main_source_file (length l) st env = (r, env')
      /\ r <> Ok None
      /\ (forall st', r = Ok (Some st') ->
                      headers_to_process st' = []
                      /\ processed_local_headers st' = processed_local_headers st
                      /\ all_source_files st' = all_source_files st).
Proof.
  induction l as [|h rest IH]; intros st env Hl Hno.
  - cbn. rewrite Hl. eexists _, _. split; [reflexivity |]. split; [discriminate |].
    intros st' [= <-]. done.
  - cbn [length]. rewrite run_loop_unfold, Hl.
    destruct (process_header w pm main_source_file (set_worklist rest st) h env)
      as [[st1|e] env1] eqn:E.
    2: { eexists _, _. split; [reflexivity |]. split; discriminate. }
    apply process_header_worklist in E
      as [(E1 & E2 & E3 & _)|(path & Hq & Hstd & Hfind & _)].
    + destruct (IH st1 env1) as (r & env' & R & Hne & Hfin).
      { exact E1. }
      { intros name Hin. apply Hno. now constructor. }
      exists r, env'. split; [exact R |]. split; [exact Hne |].
      intros st' Hr. destruct (Hfin st' Hr) as (F1 & F2 & F3).
      rewrite F2, F3, E2, E3. done.
    + exfalso. destruct h as [name q]. cbn in Hq, Hstd, Hfind. subst q.
      destruct (Hno name) as [H|H]; [constructor | congruence | congruence].
Qed.

(** X9.  When no quoted reference of the worklist can be found in the
    project tree (each is a standard header or [find_local_file] finds
    nothing), the loop is over after as many iterations as the worklist is
    long: it returns with an empty worklist, the resolved set and the sources
    as they were, or it has raised. *)
Theorem loop_ends_when_nothing_is_local w pm main_source_file st env :
  (forall name, (name, QUOTE) ∈ headers_to_process st ->
                is_standard_header name = true
                \/ find_local_file w name (project_root main_source_file) = None) ->
  exists r env',
    run_loop w pm main_source_file (length (headers_to_process st)) st env = (r, env')
    /\ r <> Ok None
    /\ (forall st', r = Ok (Some st') ->
                    headers_to_process st' = []
                    /\ processed_local_headers st' = processed_local_headers st
                    /\ all_source_files st' = all_source_files st).
Proof. intros H. now apply loop_ends_within. Qed.

Lemma loop_ends_when_nothing_is_local_witness :
  exists r env',
    run_loop cycle_project (manager_of debian cycle_project) cycle_main 2
             (set_worklist [("missing.h", QUOTE); ("zlib.h", ANGLE)]
                           (initial cycle_project cycle_main))
             (fresh_env debian) = (r, env')
    /\ r <> Ok None
    /\ (forall st', r = Ok (Some st') ->
                    headers_to_process st' = []
                    /\ processed_local_headers st' = ∅
                    /\ all_source_files st' = {[ cycle_main ]}).
Proof.
  apply (loop_ends_when_nothing_is_local
           cycle_project (manager_of debian cycle_project) cycle_main
           (set_worklist [("missing.h", QUOTE); ("zlib.h", ANGLE)]
                         (initial cycle_project cycle_main))
           (fresh_env debian)).
  intros name Hin. right.
  apply elem_of_cons in Hin as [[= ->]|Hin]; [vm_compute; reflexivity |].
  apply elem_of_cons in Hin as [Hin|Hin]; [discriminate Hin | inversion Hin].
Defined.

(** ** Invariants of the outputs *)

Section OutputInvariants.
Variable w : World.
Variable pm : PackageManager.
Variable main_source_file : string.

Lemma step_keeps_consistent st env st' env' :
  consistent_outputs w main_source_file st ->
  step w pm main_source_file st env = (Ok st', env') ->
  consistent_outputs w main_source_file st'.
Proof.
  intros (J1 & J2 & J3). unfold step.
  destruct (headers_to_process st) as [|h rest]; [intros [= <- _]; done |].
  intros H. apply process_header_worklist in H
    as [(_ & E2 & E3 & E4)|(path & _ & _ & _ & ->)].
  - cbn in E2, E3, E4. unfold consistent_outputs. rewrite E2, E3.
    repeat split; [exact J1 | | exact J3]. intros p Hp. apply E4. now apply J2.
  - destruct (local_branch_outputs w (set_worklist rest st) path) as (E1 & E2 & _ & _ & E5).
    cbn zeta in E1, E2, E5. cbn [set_worklist all_source_files all_include_paths
                                 processed_local_headers] in E1, E2, E5.
    unfold consistent_outputs. rewrite E1, E2, E5. repeat split.
    + destruct (FS.exists_ _ _); set_solver.
    + intros p Hp. apply elem_of_union in Hp as [Hp|Hp].
      * apply elem_of_singleton in Hp. subst. set_solver.
      * apply J2 in Hp. set_solver.
    + intros f Hf.
      destruct (FS.exists_ w _) eqn:Hex.
      * apply elem_of_union in Hf as [Hf|Hf].
        -- apply elem_of_singleton in Hf. subst f. right.
           exists (FS.abspath w path). split; [set_solver | now split].
        -- destruct (J3 f Hf) as [->|(p & Hp & Hrest)]; [now left |].
           right. exists p. split; [set_solver | exact Hrest].
      * destruct (J3 f Hf) as [->|(p & Hp & Hrest)]; [now left |].
        right. exists p. split; [set_solver | exact Hrest].
Qed.

Lemma steps_keep_consistent n st env st' env' :
  consistent_outputs w main_source_file st ->
  steps w pm main_source_file n st env = (Ok st', env') ->
  consistent_outputs w main_source_file st'.
Proof.
  revert st env; induction n as [|n IH]; intros st env J; cbn.
  - intros [= <- _]. exact J.
  - unfold mbind, M_bind.
    destruct (step w pm main_source_file st env) as [[st1|e] env1] eqn:E1; [| discriminate].
    apply IH. eapply step_keeps_consistent; eauto.
Qed.

End OutputInvariants.

(** X10.  At every point of a run started by [main]: the entry file is
    among the sources; every other source is the [.cpp] file next to a
    resolved local header, and it exists; the directory of every resolved
    local header is among the include paths. *)
Theorem outputs_stay_consistent w pm main_source_file n env st' env' :
  steps w pm main_source_file n (initial w main_source_file) env = (Ok st', env') ->
  main_source_file ∈ all_source_files st'
  /\ (forall p, p ∈ processed_local_headers st' ->
                posixpath.dirname p ∈ all_include_paths st')
  /\ (forall f, f ∈ all_source_files st' ->
                f = main_source_file
                \/ exists p, p ∈ processed_local_headers st'
                             /\ f = (posixpath.splitext p).1 +:+ ".cpp"
                             /\ FS.exists_ w f = true).
Proof.
  apply steps_keep_consistent. unfold consistent_outputs. cbn.
  repeat split; [set_solver | set_solver |].
  intros f Hf. left. set_solver.
Qed.

Lemma outputs_stay_consistent_witness :
  let w := app_project no_tools in
  let st' := local_branch w (set_worklist [("zlib.h", ANGLE)] (initial w app_main))
                          "/src/lib/util.h" in
  app_main ∈ all_source_files st'
  /\ (forall p, p ∈ processed_local_headers st' ->
                posixpath.dirname p ∈ all_include_paths st')
  /\ (forall f, f ∈ all_source_files st' ->
                f = app_main
                \/ exists p, p ∈ processed_local_headers st'
                             /\ f = (posixpath.splitext p).1 +:+ ".cpp"
                             /\ FS.exists_ w f = true).
Proof.
  cbn zeta.
  refine (outputs_stay_consistent
            (app_project no_tools) (manager_of debian (app_project no_tools)) app_main 1
            (fresh_env debian) _
            {| cache := cache (fresh_env debian); trace := [LocalLookup "util.h"] |} _).
  vm_compute. reflexivity.
Defined.

(** ** What a match tells about the text *)

Section MatcherInversion.
Import Re.

Lemma one_inv p k prev s cs m :
  one p k prev s cs = Some m ->
  exists c r, s = String c r /\ p c = true /\ k (Some c) r (push c cs) = Some m.
Proof.
  unfold one. destruct s as [|c r]; [discriminate |].
  destruct (p c) eqn:Hc; [| discriminate]. intros H. now exists c, r.
Qed.

Lemma star_inv p k s : forall prev cs m,
  star p k prev s cs = Some m ->
  exists run r,
    s = run +:+ r /\ Py.all_chars p run = true
    /\ k (last_of prev run) r (pushs run cs) = Some m.
Proof.
  induction s as [|c s IH]; intros prev cs m; cbn.
  - intros H. exists EmptyString, EmptyString. now repeat split.
  - destruct (p c) eqn:Hc.
    + destruct (star p k (Some c) s (push c cs)) as [m'|] eqn:Hs.
      * intros [= <-]. destruct (IH _ _ _ Hs) as (run & r & -> & Hrun & Hk).
        exists (String c run), r. cbn. rewrite Hc, Hrun. now repeat split.
      * intros H. exists EmptyString, (String c s). now repeat split.
    + intros H. exists EmptyString, (String c s). now repeat split.
Qed.

Lemma search_from_inv re s : forall prev m,
  search_from re prev s = Some m ->
  exists before after prev',
    s = before +:+ after /\ match_here re prev' after no_caps = Some m.
Proof.
  induction s as [|c s IH]; intros prev m; cbn.
  - destruct (match_here re prev EmptyString no_caps) eqn:E; [| discriminate].
    intros [= <-]. now exists EmptyString, EmptyString, prev.
  - destruct (match_here re prev (String c s) no_caps) eqn:E.
    + intros [= <-]. now exists EmptyString, (String c s), prev.
    + intros H. destruct (IH _ _ H) as (before & after & prev' & -> & Hm).
      now exists (String c before), after, prev'.
Qed.

Lemma finditer_from_inv re fuel : forall prev s m,
  m ∈ finditer_from fuel re prev s ->
  exists prev' text, match_here re prev' text no_caps = Some m.
Proof.
  induction fuel as [|fuel IH]; intros prev s m; cbn.
  - intros H. inversion H.
  - destruct (search_from re prev s) as [m0|] eqn:E; [| intros H; inversion H].
    intros H. apply elem_of_cons in H as [->|H].
    + destruct (search_from_inv _ _ _ _ E) as (before & after & prev' & _ & Hm).
      now exists prev', after.
    + now apply IH in H.
Qed.

Lemma contains_startswith needle s :
  Py.startswith needle s = true -> Py.contains needle s = true.
Proof. intros H. destruct s; cbn; now rewrite H. Qed.

Lemma contains_here needle rest : Py.contains needle (needle +:+ rest) = true.
Proof.
  apply contains_startswith.
  induction needle as [|c needle IH]; [reflexivity |].
  rewrite append_cons. cbn. now rewrite Ascii.eqb_refl, IH.
Qed.

Lemma contains_after before needle rest :
  Py.contains needle (before +:+ needle +:+ rest) = true.
Proof.
  induction before as [|c before IH].
  - rewrite append_nil. apply contains_here.
  - rewrite append_cons. cbn. rewrite IH. apply orb_true_r.
Qed.

Lemma all_chars_app p a b :
  Py.all_chars p (a +:+ b) = Py.all_chars p a && Py.all_chars p b.
Proof.
  induction a as [|c a IH]; [reflexivity |].
  rewrite append_cons. cbn. rewrite IH. now rewrite andb_assoc.
Qed.

End MatcherInversion.

(** The lines [INCLUDE_REGEX] matches are the include directives. *)
Lemma include_regex_inv line m :
  Re.match_ INCLUDE_REGEX line = Some m ->
  exists ws1 ws2 ws3 opening name closing tail,
    line = include_line ws1 ws2 ws3 opening name closing tail
    /\ Py.all_chars Chars.is_space ws1 = true
    /\ Py.all_chars Chars.is_space ws2 = true
    /\ Py.all_chars Chars.is_space ws3 = true
    /\ Chars.one_of ["<"%char; Chars.dquote] opening = true
    /\ Chars.one_of [">"%char; Chars.dquote] closing = true
    /\ is_header_name name = true
    /\ Re.groups m = [String opening EmptyString; name].
Proof.
  unfold Re.match_, INCLUDE_REGEX.
  cbn [Re.match_here app Re.lit fmap list_fmap String.list_ascii_of_string Re.chr].
  intros H.
  apply star_inv in H as (ws1 & r1 & -> & Hws1 & H).
  unfold Re.no_caps in H. rewrite pushs_outside_group in H.
  apply one_inv in H as (c1 & r2 & -> & Hc1 & H).
  apply Ascii.eqb_eq in Hc1. subst c1.
  apply star_inv in H as (ws2 & r3 & -> & Hws2 & H).
  norm_caps_in H. rewrite pushs_outside_group in H.
  repeat match type of H with
         | Re.one (Ascii.eqb ?x) _ _ _ _ = Some _ =>
             let c := fresh "c" in let r := fresh "r" in let Hc := fresh "Hc" in
             apply one_inv in H as (c & r & -> & Hc & H);
             apply Ascii.eqb_eq in Hc; subst c; norm_caps_in H
         end.
  apply star_inv in H as (ws3 & r4 & -> & Hws3 & H).
  rewrite pushs_outside_group in H. norm_caps_in H.
  apply one_inv in H as (opening & r5 & -> & Hopen & H). norm_caps_in H.
  apply one_inv in H as (n0 & r6 & -> & Hn0 & H). norm_caps_in H.
  apply star_inv in H as (name & r7 & -> & Hname & H).
  rewrite pushs_inside_group in H. norm_caps_in H.
  apply one_inv in H as (closing & tail & -> & Hclose & H). norm_caps_in H.
  injection H as <-.
  exists ws1, ws2, ws3, opening, (String n0 name), closing, tail.
  repeat split; try assumption.
  - unfold is_header_name. cbn. now rewrite Hn0, Hname.
Qed.

(** X11.  [extract_headers_from_file] returns only what include
    directives carry: every pair it returns has one of the two opening
    delimiters as its marker and a non-empty name without [>] and without
    double quote, and is read from a line of the file made of white space,
    [#], white space, [include], white space, that delimiter, that name and a
    closing delimiter.  A file that is missing or not readable gives no
    pair. *)
Theorem extracted_headers_come_from_directives w file_path name marker :
  (name, marker) ∈ extract_headers_from_file w file_path ->
  exists text utf8 ws1 ws2 ws3 opening closing tail,
    FS.resolve w file_path = Some (File text utf8)
    /\ include_line ws1 ws2 ws3 opening name closing tail ∈ Py.readlines text
    /\ marker = String opening EmptyString
    /\ (marker = ANGLE \/ marker = QUOTE)
    /\ is_header_name name = true
    /\ Py.all_chars Chars.is_space ws1 = true
    /\ Py.all_chars Chars.is_space ws2 = true
    /\ Py.all_chars Chars.is_space ws3 = true
    /\ Chars.one_of [">"%char; Chars.dquote] closing = true.
Proof.
  unfold extract_headers_from_file, FS.read.
  destruct (FS.resolve w file_path) as [[text utf8|es]|] eqn:Hres; cbn; try set_solver.
  intros Hin.
  assert (Hline : exists line, line ∈ Py.readlines text
                               /\ (name, marker) ∈ add_header ∅ line).
  { revert Hin. generalize (Py.readlines text). intros lines.
    assert (G : forall acc, (name, marker) ∈ foldl add_header acc lines ->
                            (name, marker) ∈ acc
                            \/ exists line, line ∈ lines /\ (name, marker) ∈ add_header ∅ line).
    { induction lines as [|l lines IH]; intros acc; cbn; [now left |].
      intros H. apply IH in H as [H|(line & Hl & H)].
      - rewrite add_header_union in H. apply elem_of_union in H as [H|H]; [| now left].
        right. exists l. split; [constructor | exact H].
      - right. exists line. split; [now constructor | exact H]. }
    intros H. apply G in H as [H|H]; [set_solver | exact H]. }
  destruct Hline as (line & Hl & Hadd).
  unfold add_header in Hadd.
  destruct (Re.match_ INCLUDE_REGEX line) as [m|] eqn:Hm; [| set_solver].
  destruct (include_regex_inv line m Hm)
    as (ws1 & ws2 & ws3 & opening & name' & closing & tail & -> & H1 & H2 & H3 & Ho & Hc & Hn & Hg).
  rewrite Hg in Hadd. apply elem_of_union in Hadd as [Hadd|Hadd]; [| set_solver].
  apply elem_of_singleton in Hadd. injection Hadd as -> ->.
  exists text, utf8, ws1, ws2, ws3, opening, closing, tail.
  repeat split; try assumption; try reflexivity.
  unfold Chars.one_of in Ho. cbn in Ho.
  destruct (Ascii.eqb_spec opening "<"%char) as [->|_]; [now left |].
  destruct (Ascii.eqb_spec opening Chars.dquote) as [->|_]; [now right | discriminate Ho].
Qed.

Lemma extracted_headers_come_from_directives_witness :
  exists text utf8 ws1 ws2 ws3 opening closing tail,
    FS.resolve (app_project no_tools) app_main = Some (File text utf8)
    /\ include_line ws1 ws2 ws3 opening "util.h" closing tail ∈ Py.readlines text
    /\ QUOTE = String opening EmptyString
    /\ (QUOTE = ANGLE \/ QUOTE = QUOTE)
    /\ is_header_name "util.h" = true
    /\ Py.all_chars Chars.is_space ws1 = true
    /\ Py.all_chars Chars.is_space ws2 = true
    /\ Py.all_chars Chars.is_space ws3 = true
    /\ Chars.one_of [">"%char; Chars.dquote] closing = true.
Proof.
  apply (extracted_headers_come_from_directives (app_project no_tools) app_main "util.h" QUOTE).
  refine (bool_decide_unpack _ _). vm_compute. exact I.
Defined.

(** ** What the backends report *)



Lemma split_once_on_inv sep s : forall cur a b,
  Py.split_once_on sep cur s = Some (a, b) -> cur +:+ s = a +:+ String sep b.
Proof.
  induction s as [|c s IH]; intros cur a b; cbn; [discriminate |].
  destruct (Ascii.eqb_spec c sep) as [->|Hne].
  - now intros [= -> ->].
  - intros H. apply IH in H. rewrite <- H. unfold Py.snoc.
    now rewrite append_assoc, append_cons, append_nil.
Qed.






Lemma foldl_keeps {A B : Type} (f : A -> B -> A) (P : A -> Prop) :
  (forall acc x, P acc -> P (f acc x)) ->
  forall l acc, P acc -> P (foldl f acc l).
Proof.
  intros Hf. induction l as [|x l IH]; intros acc Hacc; cbn; [exact Hacc |].
  apply IH, Hf, Hacc.
Qed.

Lemma known_path_spec candidates path :
  known_path candidates path = false -> path ∉ full_path <$> candidates.
Proof.
  unfold known_path. induction candidates as [|c cs IH]; cbn; [intros _ H; inversion H |].
  intros H. apply orb_false_elim in H as [H1 H2].
  intros Hin. apply elem_of_cons in Hin as [->|Hin]; [| now apply IH].
  now rewrite String.eqb_refl in H1.
Qed.

Lemma nodup_paths_snoc candidates c :
  NoDup (full_path <$> candidates) ->
  known_path candidates (full_path c) = false ->
  NoDup (full_path <$> (candidates ++ [c])).
Proof.
  intros Hnd Hk. rewrite fmap_app. apply NoDup_app. repeat split; [exact Hnd | | ].
  - intros x Hx Hx'. apply list_elem_of_singleton in Hx'. subst.
    now apply known_path_spec in Hk.
  - cbn. apply NoDup_singleton.
Qed.

Lemma first_field_has_no_separator sep s :
  Py.all_chars (Chars.none_of [sep]) (Py.first_field sep s) = true.
Proof.
  induction s as [|c s IH]; cbn; [reflexivity |].
  destruct (Ascii.eqb c sep) eqn:E; cbn; [reflexivity |].
  rewrite IH. unfold Chars.none_of, Chars.one_of. cbn. now rewrite E.
Qed.

(** X13.  The candidate lists of the backends, for any output of the
    package tools.  Debian: no path twice, and no package name with a colon
    (the architecture suffix is cut off).  Arch: no path twice, and every
    path ends with [/<header>].  Red Hat: every path ends with [/<header>]
    and all candidates name one package. *)
Theorem backend_candidates_are_well_formed w d header env candidates env' :
  pm_find_header_candidates (manager_of d w) header env = (Ok candidates, env') ->
  match d with
  | debian =>
      NoDup (full_path <$> candidates)
      /\ Forall (fun c => Py.all_chars (Chars.none_of [":"%char]) (package c) = true)
                candidates
  | arch =>
      NoDup (full_path <$> candidates)
      /\ Forall (fun c => Py.endswith ("/" +:+ header) (full_path c) = true) candidates
  | redhat =>
      Forall (fun c => Py.endswith ("/" +:+ header) (full_path c) = true) candidates
      /\ exists package_name, Forall (fun c => package c = package_name) candidates
  end.
Proof.
  destruct d; cbn.
  - unfold DebianManager.find_header_candidates, mbind, M_bind.
    destruct (run_command _ _ _) as [[output|e] env1]; [| discriminate].
    destruct (Py.is_empty output); cbn; intros [= <- _].
    { split; constructor. }
    apply (foldl_keeps DebianManager.parse_line
             (fun cs => NoDup (full_path <$> cs)
                        /\ Forall (fun c => Py.all_chars (Chars.none_of [":"%char])
                                                         (package c) = true) cs));
      [| split; constructor].
    intros acc line [Hnd Hall]. unfold DebianManager.parse_line.
    destruct (Py.rfind ":" line) as [i|]; [| now split].
    destruct (known_path acc _) eqn:Hk; [now split |]. split.
    + now apply nodup_paths_snoc.
    + apply Forall_app. split; [exact Hall |]. constructor; [| constructor].
      apply first_field_has_no_separator.
  - unfold RedHatManager.find_header_candidates, mbind, M_bind.
    destruct (run_command _ _ _) as [[output|e] env1]; [| discriminate].
    match goal with |- (let (_, _) := ?m env1 in _) = _ -> _ =>
      destruct (m env1) as [[[package_name|]|e] env2] end;
      [| cbn; intros [= <- _]; split; [constructor | exists EmptyString; constructor]
       | discriminate].
    destruct (run_command _ _ _) as [[file_list|e] env3]; [| discriminate].
    cbn. intros [= <- _].
    assert (H : Forall (fun c => Py.endswith ("/" +:+ header) (full_path c) = true
                                 /\ package c = package_name)
                       (foldl (RedHatManager.collect header package_name) []
                              (Py.splitlines file_list))).
    { apply foldl_keeps; [| constructor].
      intros acc line Hacc. unfold RedHatManager.collect.
      destruct (Py.endswith _ line) eqn:E; [| exact Hacc].
      apply Forall_app. split; [exact Hacc |]. constructor; [| constructor]. now split. }
    split; [| exists package_name]; eapply Forall_impl; try exact H; cbn; tauto.
  - unfold ArchManager.find_header_candidates, mbind, M_bind.
    destruct (run_command _ _ _) as [[output|e] env1]; [| discriminate].
    destruct (Py.is_empty output); cbn; intros [= <- _].
    { split; constructor. }
    apply (foldl_keeps (ArchManager.parse_line header)
             (fun cs => NoDup (full_path <$> cs)
                        /\ Forall (fun c => Py.endswith ("/" +:+ header) (full_path c) = true)
                                  cs));
      [| split; constructor].
    intros acc line [Hnd Hall]. unfold ArchManager.parse_line.
    destruct (Py.split_once Chars.tab line) as [[package_name file_path]|]; [| now split].
    destruct (Py.endswith _ file_path) eqn:E; cbn [andb]; [| now split].
    destruct (known_path acc file_path) eqn:Hk; cbn [negb]; [now split |]. split.
    + now apply nodup_paths_snoc.
    + apply Forall_app. split; [exact Hall |]. constructor; [exact E | constructor].
Qed.

Lemma backend_candidates_are_well_formed_witness :
  NoDup (full_path <$> [{| package := "libc6-dev"; full_path := "/usr/include/stdio_ext.h" |}])
  /\ Forall (fun c => Py.all_chars (Chars.none_of [":"%char]) (package c) = true)
            [{| package := "libc6-dev"; full_path := "/usr/include/stdio_ext.h" |}].
Proof.
  refine (backend_candidates_are_well_formed
            (app_project libc_tools) debian "stdio_ext.h" (fresh_env debian)
            [{| package := "libc6-dev"; full_path := "/usr/include/stdio_ext.h" |}]
            {| cache := cache (fresh_env debian);
               trace := [Exec ["dpkg"; "-S"; "*/stdio_ext.h"]] |} _).
  vm_compute. reflexivity.
Defined.

(** ** Symbols and scores *)

Lemma match_here_rest re : forall prev s cs m,
  Re.match_here re prev s cs = Some m -> exists consumed, s = consumed +:+ Re.rest m.
Proof.
  induction re as [|it re IH]; intros prev s cs m; cbn [Re.match_here].
  - intros [= <-]. now exists EmptyString.
  - destruct it as [|p [| |]| | |].
    + destruct prev; [discriminate |]. apply IH.
    + intros H. apply one_inv in H as (c & r & -> & _ & H).
      apply IH in H as (consumed & ->). now exists (String c consumed).
    + intros H. apply star_inv in H as (run & r & -> & _ & H).
      apply IH in H as (consumed & ->). exists (run +:+ consumed).
      now rewrite append_assoc.
    + intros H. apply one_inv in H as (c & r & -> & _ & H).
      apply star_inv in H as (run & r' & -> & _ & H).
      apply IH in H as (consumed & ->). exists (String c (run +:+ consumed)).
      now rewrite append_cons, append_assoc.
    + destruct (Re.at_boundary prev s); [apply IH | discriminate].
    + apply IH.
    + apply IH.
Qed.

Lemma finditer_from_within re fuel : forall prev s m,
  m ∈ Re.finditer_from fuel re prev s ->
  exists before after prev',
    s = before +:+ after /\ Re.match_here re prev' after Re.no_caps = Some m.
Proof.
  induction fuel as [|fuel IH]; intros prev s m; cbn.
  - intros H. inversion H.
  - destruct (Re.search_from re prev s) as [m0|] eqn:E; [| intros H; inversion H].
    destruct (search_from_inv _ _ _ _ E) as (before & after & prev' & -> & Hm).
    intros H. apply elem_of_cons in H as [->|H].
    + now exists before, after, prev'.
    + apply IH in H as (before2 & after2 & prev2 & E2 & Hm2).
      destruct (match_here_rest _ _ _ _ _ Hm) as (consumed & ->).
      exists (before +:+ consumed +:+ before2), after2, prev2.
      split; [| exact Hm2]. rewrite E2. now rewrite !append_assoc.
Qed.

Lemma symbol_regex_inv prev after m :
  Re.match_here symbol_regex prev after Re.no_caps = Some m ->
  exists symbol ws tail,
    Re.groups m = [symbol] /\ is_identifier symbol = true
    /\ Py.all_chars Chars.is_space ws = true
    /\ after = symbol +:+ ws +:+ "(" +:+ tail.
Proof.
  unfold symbol_regex. cbn [Re.match_here Re.chr]. unfold Re.no_caps.
  destruct (Re.at_boundary prev after); [| discriminate]. norm_caps.
  intros H.
  apply one_inv in H as (c0 & r & -> & Hc0 & H). norm_caps_in H.
  apply star_inv in H as (run & r' & -> & Hrun & H).
  rewrite pushs_inside_group in H. norm_caps_in H.
  apply star_inv in H as (ws & r'' & -> & Hws & H).
  rewrite pushs_outside_group in H.
  apply one_inv in H as (c & tail & -> & Hc & H).
  apply Ascii.eqb_eq in Hc. subst c. norm_caps_in H. injection H as <-.
  exists (String c0 run), ws, tail. cbn [Re.groups].
  split; [reflexivity |]. split; [cbn; now rewrite Hc0, Hrun |].
  split; [exact Hws |].
  now rewrite ?append_cons, ?append_nil, ?append_assoc.
Qed.

(** X14.  Every symbol [analyze_source_for_symbols] returns is an
    identifier (a letter or underscore, then letters, digits and
    underscores) that stands in the text of the file, followed by optional
    white space and an opening parenthesis. *)
Theorem sampled_symbols_are_called_identifiers w file_path symbol :
  symbol ∈ analyze_source_for_symbols w file_path ->
  is_identifier symbol = true
  /\ exists text before ws tail,
      FS.read w file_path true = FS.ReadOk text
      /\ Py.all_chars Chars.is_space ws = true
      /\ Py.universal_newlines text = before +:+ symbol +:+ ws +:+ "(" +:+ tail.
Proof.
  unfold analyze_source_for_symbols.
  destruct (FS.read w file_path true) as [text| |]; try set_solver.
  unfold Re.finditer.
  generalize (S (String.length (Py.universal_newlines text))). intros fuel Hin.
  assert (Hm : exists m, m ∈ Re.finditer_from fuel symbol_regex None (Py.universal_newlines text)
                         /\ exists more, Re.groups m = symbol :: more).
  { revert Hin. generalize (Re.finditer_from fuel symbol_regex None (Py.universal_newlines text)).
    intros ms.
    assert (G : forall acc, symbol ∈ foldl add_symbol acc ms ->
                            symbol ∈ acc
                            \/ exists m, m ∈ ms /\ exists more, Re.groups m = symbol :: more).
    { induction ms as [|m ms IH]; intros acc; cbn; [now left |].
      intros H. apply IH in H as [H|(m' & Hin & Hg)].
      - unfold add_symbol in H. destruct (Re.groups m) as [|g more] eqn:Hg; [now left |].
        apply elem_of_union in H as [H|H]; [| now left].
        apply elem_of_singleton in H. subst g.
        right. exists m. split; [constructor | now exists more].
      - right. exists m'. split; [now constructor | exact Hg]. }
    intros H. apply G in H as [H|H]; [set_solver | exact H]. }
  destruct Hm as (m & Hin' & more & Hg).
  apply finditer_from_within in Hin' as (before & after & prev' & E & Hmatch).
  apply symbol_regex_inv in Hmatch as (symbol' & ws & tail & Hg' & Hid & Hws & ->).
  rewrite Hg' in Hg. injection Hg as -> _.
  split; [exact Hid |].
  exists text, before, ws, tail. repeat split; [exact Hws | exact E].
Qed.

Lemma sampled_symbols_are_called_identifiers_witness :
  is_identifier "deflate" = true
  /\ exists text before ws tail,
      FS.read scoring_project "/src/app.cpp" true = FS.ReadOk text
      /\ Py.all_chars Chars.is_space ws = true
      /\ Py.universal_newlines text = before +:+ "deflate" +:+ ws +:+ "(" +:+ tail.
Proof.
  apply (sampled_symbols_are_called_identifiers scoring_project "/src/app.cpp" "deflate").
  refine (bool_decide_unpack _ _). vm_compute. exact I.
Defined.

(** X15.  The score of a header is at most the number of symbols, is 0
    for no symbols, and never goes down when symbols are added. *)
Theorem score_is_bounded_and_monotone w (symbols more_symbols : gset string) header_path :
  symbols ⊆ more_symbols ->
  (score_header_match w symbols header_path
   <= score_header_match w more_symbols header_path)%nat
  /\ (score_header_match w more_symbols header_path <= size more_symbols)%nat
  /\ score_header_match w ∅ header_path = 0%nat.
Proof.
  intros Hsub. unfold score_header_match.
  destruct (FS.read w header_path false) as [text| |]; try (repeat split; lia).
  split; [| split].
  - apply submseteq_length, NoDup_submseteq.
    + apply NoDup_filter, NoDup_elements.
    + intros x Hx. apply list_elem_of_filter in Hx as [Hp Hx].
      apply list_elem_of_filter. split; [exact Hp |].
      apply elem_of_elements. apply elem_of_elements in Hx. set_solver.
  - etrans; [apply length_filter | reflexivity].
  - now rewrite elements_empty.
Qed.

Lemma score_is_bounded_and_monotone_witness :
  (score_header_match scoring_project {[ "inflate" ]} "/usr/include/b/zlib.h"
   <= score_header_match scoring_project ({[ "inflate" ]} ∪ {[ "deflate" ]})
                         "/usr/include/b/zlib.h")%nat
  /\ (score_header_match scoring_project ({[ "inflate" ]} ∪ {[ "deflate" ]})
                         "/usr/include/b/zlib.h"
      <= size (({[ "inflate" ]} ∪ {[ "deflate" ]}) : gset string))%nat
  /\ score_header_match scoring_project ∅ "/usr/include/b/zlib.h" = 0%nat.
Proof.
  apply (score_is_bounded_and_monotone scoring_project
           {[ "inflate" ]} ({[ "inflate" ]} ∪ {[ "deflate" ]}) "/usr/include/b/zlib.h").
  set_solver.
Defined.

(** ** The backend is asked once about a package *)

Lemma info_queries_none evs : Forall no_info_query evs -> info_queries evs = [].
Proof.
  induction 1 as [|ev evs Hev _ IH]; [reflexivity |].
  unfold info_queries in *. cbn. destruct ev; cbn in *; try exact IH. contradiction.
Qed.

Lemma exec_no_info_query ev : is_exec ev -> no_info_query ev.
Proof. now destruct ev. Qed.

Section ListedOnce.
Variable w : World.
Variable d : distro.
Variable main_source_file : string.

Lemma find_header_candidates_no_info header :
  emits no_info_query (find_header_candidates header (manager_of d w)).
Proof.
  unfold find_header_candidates.
  apply emits_bind; [apply (emits_cache_get _ system_headers) | intros [[|c cs]|]].
  2: apply emits_ret.
  all: apply emits_bind; [now apply emits_tell | intros _].
  all: apply emits_bind;
    [eapply emits_weaken; [apply exec_no_info_query | apply emits_manager]
    | intros ?].
  all: apply emits_bind; [apply (emits_cache_set _ system_headers) | intros _].
  all: apply emits_ret.
Qed.

Lemma find_package_info_queries package_name env :
  exists evs,
    trace (find_package_info package_name (manager_of d w) env).2 = trace env ++ evs
    /\ (info_queries evs = [] \/ info_queries evs = [package_name]).
Proof.
  unfold find_package_info, mbind, M_bind, cache_get, tell, cache_set.
  destruct (Cache.get (cache env) packages package_name) as [info|]; cbn.
  { exists []. split; [now rewrite app_nil_r | now left]. }
  match goal with |- context [pm_find_package_info ?pm ?h ?e] =>
    destruct (proj2 (emits_manager d w) h e) as (evs & E & F);
    destruct (pm_find_package_info pm h e) as [[info|ex] env1] end; cbn in E |- *.
  all: exists (InfoQuery package_name :: evs).
  all: split; [rewrite E; now rewrite <- app_assoc |].
  all: right; unfold info_queries; cbn; fold (info_queries evs).
  all: rewrite info_queries_none;
    [reflexivity | eapply Forall_impl; [exact F | apply exec_no_info_query]].
Qed.

(** One iteration: at most one package is listed, one that was not
    processed and is processed afterwards. *)
Lemma system_branch_queries st header env :
  exists evs,
    trace (system_branch w (manager_of d w) main_source_file st header env).2
    = trace env ++ evs
    /\ (info_queries evs = []
        \/ exists p, info_queries evs = [p]
                     /\ (p ∉ processed_system_packages st)
                     /\ forall st', (system_branch w (manager_of d w) main_source_file
                                                  st header env).1 = Ok st' ->
                                    p ∈ processed_system_packages st')
    /\ (forall st', (system_branch w (manager_of d w) main_source_file st header env).1
                    = Ok st' ->
                    processed_system_packages st ⊆ processed_system_packages st').
Proof.
  unfold system_branch, mbind, M_bind, mret, M_ret.
  destruct (find_header_candidates_no_info header env) as (evs1 & E1 & F1).
  apply info_queries_none in F1.
  destruct (find_header_candidates header (manager_of d w) env)
    as [[[|first others]|e] env1]; cbn in E1; cbv beta iota; cbn [fst snd].
  1,3: exists evs1; split; [exact E1 |]; split; [now left |];
       intros st'; try discriminate; intros [= <-]; done.
  case_bool_decide as Hseen; cbn [orb fst snd].
  { exists evs1. split; [exact E1 |]. split; [now left |]. intros st' [= <-]. done. }
  match goal with |- context [ignored_package ?p] => destruct (ignored_package p) end;
    cbn [fst snd].
  { exists evs1. split; [exact E1 |]. split; [now left |]. intros st' [= <-]. done. }
  destruct (find_package_info_queries
              (package (best_candidate w main_source_file first others)) env1)
    as (evs2 & E2 & Q2).
  destruct (find_package_info _ (manager_of d w) env1) as [[info|e] env2];
    cbn in E2; cbv beta iota; cbn [fst snd].
  all: exists (evs1 ++ evs2).
  all: split; [rewrite E2, E1; now rewrite app_assoc |].
  all: unfold info_queries in *; rewrite omap_app, F1; cbn [app].
  all: split; [| intros st'; try discriminate; intros [= <-]; cbn; set_solver].
  all: destruct Q2 as [Q2|Q2]; [now left | right].
  all: eexists; split; [exact Q2 |]; split; [exact Hseen |].
  all: intros st'; try discriminate; intros [= <-]; cbn; set_solver.
Qed.

Lemma step_queries st env :
  exists evs,
    trace (step w (manager_of d w) main_source_file st env).2 = trace env ++ evs
    /\ (info_queries evs = []
        \/ exists p, info_queries evs = [p]
                     /\ (p ∉ processed_system_packages st)
                     /\ forall st', (step w (manager_of d w) main_source_file st env).1
                                    = Ok st' ->
                                    p ∈ processed_system_packages st')
    /\ (forall st', (step w (manager_of d w) main_source_file st env).1 = Ok st' ->
                    processed_system_packages st ⊆ processed_system_packages st').
Proof.
  assert (Hnone : forall (r : outcome Locals) env0 ev,
             no_info_query ev ->
             (forall st', r = Ok st' ->
                          processed_system_packages st ⊆ processed_system_packages st') ->
             exists evs,
               trace {| cache := cache env0; trace := trace env ++ [ev] |} = trace env ++ evs
               /\ (info_queries evs = []
                   \/ exists p, info_queries evs = [p]
                                /\ (p ∉ processed_system_packages st)
                                /\ forall st', r = Ok st' -> p ∈ processed_system_packages st')
               /\ (forall st', r = Ok st' ->
                               processed_system_packages st ⊆ processed_system_packages st')).
  { intros r env0 ev Hev Hr. exists [ev]. split; [reflexivity |]. split; [left | exact Hr].
    apply info_queries_none. now constructor. }
  unfold step. destruct (headers_to_process st) as [|[header_name quote_type] rest].
  { exists []. cbn. split; [now rewrite app_nil_r |]. split; [now left |].
    intros st' [= <-]. done. }
  unfold process_header. destruct (_ || _).
  { exists []. cbn. split; [now rewrite app_nil_r |]. split; [now left |].
    intros st' [= <-]. done. }
  unfold mbind, M_bind. destruct (String.eqb quote_type QUOTE); cbn.
  - destruct (find_local_file _ _ _) as [path|]; [destruct (Py.is_empty path) |].
    2: { apply (Hnone _ env); [exact I |]. intros st' [= <-].
         destruct (local_branch_outputs w (set_worklist rest st) path) as (_ & _ & _ & E & _).
         now rewrite E. }
    all: destruct (system_branch_queries (set_worklist rest st) header_name
                     {| cache := cache env; trace := trace env ++ [LocalLookup header_name] |})
      as (evs & E & Q & Hsub); cbn in E.
    all: exists (LocalLookup header_name :: evs).
    all: split; [rewrite E; now rewrite <- app_assoc |].
    all: split; [exact Q | exact Hsub].
  - apply (system_branch_queries (set_worklist rest st)).
Qed.

Lemma steps_queries n : forall st env,
  exists evs,
    trace (steps w (manager_of d w) main_source_file n st env).2 = trace env ++ evs
    /\ NoDup (info_queries evs)
    /\ (forall p, p ∈ info_queries evs -> p ∉ processed_system_packages st)
    /\ (forall st', (steps w (manager_of d w) main_source_file n st env).1 = Ok st' ->
                    processed_system_packages st ⊆ processed_system_packages st'
                    /\ forall p, p ∈ info_queries evs -> p ∈ processed_system_packages st').
Proof.
  induction n as [|n IH]; intros st env; cbn.
  - exists []. split; [now rewrite app_nil_r |]. split; [constructor |].
    split; [intros p H; inversion H |]. intros st' [= <-]. split; [done |].
    intros p H. inversion H.
  - unfold mbind, M_bind.
    destruct (step_queries st env) as (evs1 & E1 & Q1 & S1).
    destruct (step w (manager_of d w) main_source_file st env) as [[st1|e] env1];
      cbn in E1, Q1, S1 |- *.
    + destruct (IH st1 env1) as (evs2 & E2 & N2 & F2 & R2).
      specialize (S1 st1 eq_refl).
      exists (evs1 ++ evs2). split; [rewrite E2, E1; now rewrite app_assoc |].
      unfold info_queries in *. rewrite omap_app.
      destruct Q1 as [->|(p & -> & Hp & Hin)]; cbn [app].
      * split; [exact N2 |]. split; [intros p Hp Hp'; apply (F2 p Hp); set_solver |].
        intros st' Hst'. destruct (R2 st' Hst') as [A B]. split; [set_solver | exact B].
      * specialize (Hin st1 eq_refl). split; [| split].
        -- constructor; [| exact N2]. intros Hp2. exact (F2 p Hp2 Hin).
        -- intros q Hq. apply elem_of_cons in Hq as [->|Hq]; [exact Hp |].
           intros Hq'. apply (F2 q Hq). set_solver.
        -- intros st' Hst'. destruct (R2 st' Hst') as [A B]. split; [set_solver |].
           intros q Hq. apply elem_of_cons in Hq as [->|Hq]; [set_solver | now apply B].
    + exists evs1. split; [exact E1 |].
      destruct Q1 as [->|(p & -> & Hp & _)].
      * split; [constructor |]. split; [intros p H; inversion H | discriminate].
      * split; [apply NoDup_singleton |]. split; [| discriminate].
        intros q Hq. apply list_elem_of_singleton in Hq. now subst.
Qed.

End ListedOnce.

(** X16.  Over any number of iterations, with any of the three backends
    and whether the run returns or raises, the method [find_package_info] of
    the backend (the event [InfoQuery], on a cache miss) is called at most
    once for a package, never for a package that was already processed, and
    every package it was called for is among the processed ones afterwards.
    The commands the candidates lookup runs are not counted: on Red Hat it
    lists the files of a package too. *)
Theorem backend_package_info_is_called_once w d main_source_file n st env :
  exists evs,
    trace (steps w (manager_of d w) main_source_file n st env).2 = trace env ++ evs
    /\ NoDup (info_queries evs)
    /\ (forall p, p ∈ info_queries evs -> p ∉ processed_system_packages st)
    /\ (forall st', (steps w (manager_of d w) main_source_file n st env).1 = Ok st' ->
                    processed_system_packages st ⊆ processed_system_packages st'
                    /\ forall p, p ∈ info_queries evs -> p ∈ processed_system_packages st').
Proof. apply steps_queries. Qed.

(** ** Including what a local header includes *)

Lemma foldl_enqueue_stays hs : forall st h,
  h ∈ headers_to_process st -> h ∈ headers_to_process (foldl enqueue st hs).
Proof.
  induction hs as [|x hs IH]; intros st h Hin; cbn; [exact Hin |].
  apply IH. destruct (enqueue_worklist st x) as [->|[_ ->]]; [exact Hin |].
  apply elem_of_app. now left.
Qed.

Lemma foldl_enqueue_covers hs : forall st h,
  h ∈ hs ->
  h ∈ headers_to_process (foldl enqueue st hs)
  \/ h.1 ∈ processed_local_headers st.
Proof.
  induction hs as [|x hs IH]; intros st h Hin; [inversion Hin |].
  cbn. apply elem_of_cons in Hin as [->|Hin].
  - unfold enqueue. case_bool_decide as H1; cbn [andb]; [| right; now apply dec_stable].
    left. apply foldl_enqueue_stays. case_bool_decide as H2.
    + cbn. apply elem_of_app. right. constructor.
    + now apply dec_stable.
  - destruct (IH (enqueue st x) h Hin) as [H|H]; [now left |].
    right. unfold enqueue in H. destruct (_ && _); exact H.
Qed.

(** X17.  When the local branch has processed a header, every reference
    the header contains is in the worklist, unless its name is in the
    resolved set: no include of a local header is lost. *)
Theorem includes_of_a_local_header_are_queued w st path h :
  h ∈ extract_headers_from_file w (FS.abspath w path) ->
  h ∈ headers_to_process (local_branch w st path)
  \/ h.1 ∈ processed_local_headers (local_branch w st path).
Proof.
  intros Hin. destruct (local_branch_outputs w st path) as (_ & _ & _ & _ & E5).
  cbn zeta in E5. rewrite E5. unfold local_branch.
  match goal with |- context [foldl enqueue ?s ?l] =>
    destruct (foldl_enqueue_covers l s h) as [H|H] end.
  - now apply elem_of_elements.
  - now left.
  - right. exact H.
Qed.

Lemma includes_of_a_local_header_are_queued_witness :
  ("c.h", QUOTE)
    ∈ headers_to_process
        (local_branch cycle_project (set_worklist [] (initial cycle_project cycle_main))
                      "/proj/b.h")
  \/ "c.h" ∈ processed_local_headers
               (local_branch cycle_project (set_worklist [] (initial cycle_project cycle_main))
                             "/proj/b.h").
Proof.
  apply (includes_of_a_local_header_are_queued
           cycle_project (set_worklist [] (initial cycle_project cycle_main))
           "/proj/b.h" ("c.h", QUOTE)).
  refine (bool_decide_unpack _ _). vm_compute. exact I.
Defined.

(** ** The path of a local header *)






















Lemma files_of_inv name es :
  name ∈ FS.files_of es ->
  exists text utf8, (name, File text utf8) ∈ es.
Proof.
  unfold FS.files_of. intros H.
  apply list_elem_of_fmap in H as ([n x] & -> & H).
  apply list_elem_of_filter in H as [Hfile H].
  destruct x as [text utf8 | ?]; [| discriminate Hfile].
  now exists text, utf8.
Qed.



(** ** Detecting the distribution *)

Lemma contains_char_split sep s :
  Py.contains (String sep EmptyString) s = true ->
  forall cur, is_Some (Py.split_once_on sep cur s).
Proof.
  induction s as [|c s IH]; intros H cur.
  - discriminate H.
  - cbn [Py.split_once_on]. destruct (Ascii.eqb_spec c sep) as [-> | Hne]; [eauto |].
    apply IH. cbn in H. rewrite Ascii.eqb_sym in H.
    apply Ascii.eqb_neq in Hne. now rewrite Hne in H.
Qed.

Lemma split_once_contains sep line k v :
  Py.split_once sep line = Some (k, v) ->
  Py.contains (String sep EmptyString) line = true.
Proof.
  intros H. apply split_once_on_inv in H. rewrite append_nil in H. subst line.
  change (String sep v) with (String sep EmptyString +:+ v). apply contains_after.
Qed.

Lemma add_assignment_total info line : is_Some (add_assignment info line).
Proof.
  unfold add_assignment. destruct (Py.contains "=" line) eqn:E; [| eauto].
  destruct (contains_char_split "=" line E EmptyString) as [[k v] Hs].
  unfold Py.split_once. rewrite Hs. eauto.
Qed.

Lemma os_release_info_from lines : forall info,
  is_Some (foldl (fun acc line => info ← acc; add_assignment info line) (Some info) lines).
Proof.
  induction lines as [|line lines IH]; intros info; [cbn; eauto |].
  cbn [foldl]. destruct (add_assignment_total info line) as [info' E].
  cbn [mbind option_bind]. rewrite E. apply IH.
Qed.

(** X19.  [get_distro] raises exactly when [/etc/os-release] exists but
    cannot be read as text; a missing file gives no distribution, and
    unpacking a split line never fails. *)
Theorem get_distro_raises_only_when_unreadable w :
  (get_distro w = None <-> FS.read w os_release true = FS.ReadFailure)
  /\ (FS.exists_ w os_release = false -> get_distro w = Some None).
Proof.
  unfold get_distro, FS.exists_, FS.read.
  destruct (FS.resolve w os_release) as [[text utf8 | es] |] eqn:E.
  - rewrite bool_decide_eq_true_2 by eauto. cbn [negb andb].
    split; [| discriminate]. destruct utf8; cbn [negb]; [| tauto].
    destruct (os_release_info_from (Py.readlines text) ∅) as [info Hinfo].
    unfold os_release_info. rewrite Hinfo. cbn. split; discriminate.
  - rewrite bool_decide_eq_true_2 by eauto. cbn [negb]. split; [tauto | discriminate].
  - rewrite bool_decide_eq_false_2 by (intros [? ?]; discriminate). cbn [negb].
    split; [split; discriminate | reflexivity].
Qed.

Lemma add_assignment_keeps key info line :
  assigns key line = false ->
  exists info', add_assignment info line = Some info' /\ info' !! key = info !! key.
Proof.
  unfold assigns, add_assignment. intros H.
  destruct (Py.contains "=" line) eqn:E; [| eauto].
  destruct (contains_char_split "=" line E EmptyString) as [[k v] Hs].
  unfold Py.split_once in *. rewrite Hs in *.
  eexists. split; [reflexivity |].
  apply lookup_insert_ne. intros Heq. rewrite Heq, String.eqb_refl in H. discriminate.
Qed.

Lemma os_release_info_keeps key lines : forall info,
  forallb (fun l => negb (assigns key l)) lines = true ->
  exists info',
    foldl (fun acc line => info ← acc; add_assignment info line) (Some info) lines
    = Some info'
    /\ info' !! key = info !! key.
Proof.
  induction lines as [|line lines IH]; intros info H; [cbn; eauto |].
  cbn [forallb] in H. apply andb_prop in H as [Hl H]. apply negb_true_iff in Hl.
  destruct (add_assignment_keeps key info line Hl) as (info1 & E1 & K1).
  destruct (IH info1 H) as (info' & E' & K').
  exists info'. cbn [foldl mbind option_bind]. rewrite E1. split; [exact E' | congruence].
Qed.

(** The last assignment to a key decides its value: the text after the
    first equals sign of the line, trimmed and without surrounding
    double quotes. *)
Lemma last_assignment_wins l1 line l2 k v :
  Py.split_once "=" line = Some (k, v) ->
  forallb (fun l => negb (assigns (Py.strip k) l)) l2 = true ->
  exists info,
    os_release_info (l1 ++ line :: l2) = Some info
    /\ info !! Py.strip k = Some (strip_char Chars.dquote (Py.strip v)).
Proof.
  intros Hs Hl2. unfold os_release_info. rewrite foldl_app. cbn [foldl].
  destruct (os_release_info_from l1 ∅) as [info1 E1]. rewrite E1.
  cbn [mbind option_bind]. unfold add_assignment at 2.
  rewrite (split_once_contains _ _ _ _ Hs), Hs.
  destruct (os_release_info_keeps (Py.strip k) l2
              (<[Py.strip k := strip_char Chars.dquote (Py.strip v)]> info1) Hl2)
    as (info & E & K).
  exists info. split; [exact E |]. rewrite K. apply lookup_insert_eq.
Qed.

(** X20.  When the last line of [/etc/os-release] that assigns [ID]
    gives it the value debian, ubuntu or linuxmint (surrounding white
    space and double quotes are ignored), [get_distro] selects the Debian
    backend, whatever [ID_LIKE] and the other lines say. *)
Theorem last_id_line_selects_debian w text l1 line l2 k v :
  FS.read w os_release true = FS.ReadOk text ->
  Py.readlines text = l1 ++ line :: l2 ->
  Py.split_once "=" line = Some (k, v) ->
  Py.strip k = "ID" ->
  strip_char Chars.dquote (Py.strip v) ∈ ["debian"; "ubuntu"; "linuxmint"] ->
  forallb (fun l => negb (assigns "ID" l)) l2 = true ->
  get_distro w = Some (Some debian).
Proof.
  intros Hread Hlines Hs Hk Hv Hl2. rewrite <- Hk in Hl2.
  destruct (last_assignment_wins l1 line l2 k v Hs Hl2) as (info & Hinfo & Hid).
  rewrite Hk in Hid.
  unfold get_distro. rewrite Hread.
  assert (Hex : FS.exists_ w os_release = true).
  { unfold FS.exists_. apply bool_decide_eq_true. unfold FS.read in Hread.
    destruct (FS.resolve w os_release); [eauto | discriminate]. }
  rewrite Hex. cbn [negb]. rewrite Hlines, Hinfo. cbn [fmap option_fmap option_map].
  unfold family. rewrite Hid.
  rewrite (bool_decide_eq_true_2 (Some _ ∈ _)); [reflexivity |].
  change [Some "debian"; Some "ubuntu"; Some "linuxmint"]
    with (Some <$> ["debian"; "ubuntu"; "linuxmint"]).
  apply list_elem_of_fmap. eauto.
Qed.

Lemma last_id_line_selects_debian_witness :
  get_distro ubuntu_machine = Some (Some debian).
Proof.
  apply (last_id_line_selects_debian ubuntu_machine ubuntu_release
           ["NAME=" +:+ String Chars.dquote "Ubuntu" +:+ String Chars.dquote (String Chars.lf EmptyString)]
           ("ID=ubuntu" +:+ String Chars.lf EmptyString)
           ["ID_LIKE=debian" +:+ String Chars.lf EmptyString; "# no more"]
           "ID" ("ubuntu" +:+ String Chars.lf EmptyString)).
  - vm_compute. reflexivity.
  - vm_compute. reflexivity.
  - vm_compute. reflexivity.
  - vm_compute. reflexivity.
  - refine (bool_decide_unpack _ _). vm_compute. exact I.
  - vm_compute. reflexivity.
Defined.

(** ** Reading the compiler version *)

Lemma search_either_inv re1 re2 s : forall prev m,
  search_either re1 re2 prev s = Some m ->
  exists before after prev',
    s = before +:+ after
    /\ (Re.match_here re1 prev' after Re.no_caps = Some m
        \/ Re.match_here re2 prev' after Re.no_caps = Some m).
Proof.
  induction s as [|c s IH]; intros prev m; cbn [search_either].
  - destruct (Re.match_here re1 prev EmptyString Re.no_caps) eqn:E1.
    { intros [= <-]. exists EmptyString, EmptyString, prev. eauto. }
    destruct (Re.match_here re2 prev EmptyString Re.no_caps) eqn:E2; [| discriminate].
    intros [= <-]. exists EmptyString, EmptyString, prev. eauto.
  - destruct (Re.match_here re1 prev (String c s) Re.no_caps) eqn:E1.
    { intros [= <-]. exists EmptyString, (String c s), prev. eauto. }
    destruct (Re.match_here re2 prev (String c s) Re.no_caps) eqn:E2.
    { intros [= <-]. exists EmptyString, (String c s), prev. eauto. }
    intros H. destruct (IH _ _ H) as (before & after & prev' & -> & Hm).
    now exists (String c before), after, prev'.
Qed.

Lemma version_tail_inv prev s m :
  Re.match_here version_tail prev s Re.no_caps = Some m ->
  exists spaces digits after,
    s = spaces +:+ digits +:+ "." +:+ after
    /\ Py.all_chars Chars.is_space spaces = true
    /\ digits <> EmptyString
    /\ Py.all_chars Chars.is_ascii_digit digits = true
    /\ Re.groups m = [digits].
Proof.
  unfold version_tail. cbn [Re.match_here Re.chr]. unfold Re.no_caps. intros H.
  apply star_inv in H as (spaces & r & -> & Hspaces & H).
  rewrite pushs_outside_group in H by reflexivity. norm_caps_in H.
  apply one_inv in H as (d & r' & -> & Hd & H). norm_caps_in H.
  apply star_inv in H as (run & r'' & -> & Hrun & H).
  rewrite pushs_inside_group in H. norm_caps_in H.
  apply one_inv in H as (c & after & -> & Hc & H).
  apply Ascii.eqb_eq in Hc. subst c. norm_caps_in H.
  injection H as <-. cbn [Re.groups].
  exists spaces, (String d run), after.
  split; [now rewrite ?append_cons, ?append_nil, ?append_assoc |].
  split; [exact Hspaces |]. split; [discriminate |].
  split; [cbn; now rewrite Hd, Hrun | reflexivity].
Qed.

Lemma int_from_nonneg s : forall acc, (0 <= acc)%Z -> (0 <= int_from acc s)%Z.
Proof. induction s as [|c s IH]; intros acc H; cbn; [exact H | apply IH; lia]. Qed.

Lemma chr_inv c re prev s m :
  Re.match_here (Re.chr c :: re) prev s Re.no_caps = Some m ->
  exists r, s = String c r /\ Re.match_here re (Some c) r Re.no_caps = Some m.
Proof.
  cbn [Re.match_here Re.chr]. intros H.
  apply one_inv in H as (c' & r & -> & Hc & H).
  apply Ascii.eqb_eq in Hc. subst c'. exists r. split; [reflexivity | exact H].
Qed.

Lemma version_pattern_inv prev s m :
  Re.match_here version_after_word prev s Re.no_caps = Some m
  \/ Re.match_here version_after_paren prev s Re.no_caps = Some m ->
  exists marker spaces digits after,
    s = marker +:+ spaces +:+ digits +:+ "." +:+ after
    /\ (marker = "version" \/ marker = ")")
    /\ Py.all_chars Chars.is_space spaces = true
    /\ digits <> EmptyString
    /\ Py.all_chars Chars.is_ascii_digit digits = true
    /\ Re.groups m = [digits].
Proof.
  intros [H | H].
  - unfold version_after_word in H.
    cbn [Re.lit fmap list_fmap String.list_ascii_of_string app] in H.
    do 7 (apply chr_inv in H as (? & -> & H)).
    apply version_tail_inv in H as (spaces & digits & after & -> & Hs & Hne & Hd & Hg).
    exists "version", spaces, digits, after. now repeat split; eauto.
  - unfold version_after_paren in H. cbn [app] in H.
    apply chr_inv in H as (? & -> & H).
    apply version_tail_inv in H as (spaces & digits & after & -> & Hs & Hne & Hd & Hg).
    exists ")", spaces, digits, after. now repeat split; eauto.
Qed.

(** X21.  A version returned by [get_compiler_version] is never
    negative, and it is the decimal value of digits that the output of
    [compiler --version] shows after the word [version] or a closing
    parenthesis, white space apart, and before a dot. *)
Theorem compiler_version_is_read_after_a_marker w compiler env env' v :
  get_compiler_version w compiler env = (Ok (Some v), env') ->
  exists output digits,
    run_command w [compiler; "--version"] env = (Ok output, env')
    /\ reports_version output digits
    /\ v = int digits
    /\ (0 <= v)%Z.
Proof.
  unfold get_compiler_version, mbind, M_bind.
  destruct (run_command w [compiler; "--version"] env) as [[output | e] env1] eqn:E;
    [| discriminate].
  destruct (Py.is_empty output); [discriminate |].
  destruct (search_either _ _ None output) as [m |] eqn:Hm; [| discriminate].
  destruct (Re.groups m) as [| digits rest] eqn:Hg; [discriminate |].
  intros [= <- <-].
  apply search_either_inv in Hm as (before & found & prev' & -> & Hm).
  apply version_pattern_inv in Hm
    as (marker & spaces & digits' & after & -> & Hmarker & Hs & Hne & Hd & Hg').
  rewrite Hg in Hg'. injection Hg' as -> ->.
  exists (before +:+ marker +:+ spaces +:+ digits' +:+ "." +:+ after), digits'.
  split; [reflexivity |]. split.
  - split; [exact Hne |]. split; [exact Hd |].
    now exists before, marker, spaces, after.
  - split; [reflexivity | now apply int_from_nonneg].
Qed.

Lemma compiler_version_is_read_after_a_marker_witness :
  exists output digits,
    run_command (app_project gxx_tools) ["g++"; "--version"] (fresh_env debian)
    = (Ok output, {| cache := cache (fresh_env debian);
                     trace := [Exec ["g++"; "--version"]] |})
    /\ reports_version output digits
    /\ 11%Z = int digits
    /\ (0 <= 11)%Z.
Proof.
  apply (compiler_version_is_read_after_a_marker (app_project gxx_tools) "g++"
           (fresh_env debian)).
  vm_compute. reflexivity.
Defined.
